(** * Real-time speech translator: audio framing and session lifecycle

    A shallow embedding of the browser client of the translator:
    - the sample conversion and frame buffering of [AudioCapture]
      ([processAudioFrames], the [onaudioprocess] callback,
      [stopAudioCapture]);
    - the WebSocket lifecycle of [AudioCapture] ([connectWebSocket] and its
      [onopen]/[onerror]/[onclose]/timeout callbacks, [disconnectWebSocket],
      [handleAzureWebSocketMessage]);
    - the state callbacks of [App] ([handleSessionStart], ...);
    - the text projections of [TranscriptDisplay].

    The program is event driven and single threaded: every callback runs to
    completion.  A callback is modelled as a function from the component
    state to the next state; what it does to the outside world (messages
    sent, sockets closed, audio nodes released) is appended to a trace kept
    in the state.  A state setter takes effect where it is called.  What is
    only written to the console is not modelled. *)

From Stdlib Require Import ZArith QArith Qabs Qround List String Ascii Bool.
From Stdlib Require Import Arith Lia Lqa DecimalString DecimalZ.
From Equations Require Import Equations.
Import ListNotations.

Local Open Scope Z_scope.

(** ** JavaScript numbers *)

(** A JavaScript number is an IEEE-754 binary64 value.  A finite one is
    modelled by the rational it denotes ([+0] and [-0] both by [0], which no
    operation used here tells apart); the three other values are separate
    constructors.  The rational operations below are exact, so they agree
    with the floating-point ones wherever the latter do not round.  That is
    the case for everything the audio path computes: a sample comes out of a
    [Float32Array] (24 significant bits), and it is multiplied by [0x8000]
    (a power of two) or by [0x7FFF] (15 bits), which needs at most 39 of the
    53 bits a binary64 has. *)
Inductive number : Type :=
| Fin (q : Q)
| NaN
| PosInf
| NegInf.

Module JsNum.

Definition Qltb (x y : Q) : bool := negb (Qle_bool y x).

(** [a < b] *)
Definition lt (a b : number) : bool :=
  match a, b with
  | NaN, _ | _, NaN => false
  | Fin x, Fin y => Qltb x y
  | NegInf, NegInf => false
  | NegInf, _ => true
  | _, PosInf => match a with PosInf => false | _ => true end
  | _, _ => false
  end.

(** [a > b] *)
Definition gt (a b : number) : bool := lt b a.

(** [Math.min(a, b)] *)
Definition min (a b : number) : number :=
  match a, b with
  | NaN, _ | _, NaN => NaN
  | _, _ => if lt b a then b else a
  end.

(** [Math.max(a, b)] *)
Definition max (a b : number) : number :=
  match a, b with
  | NaN, _ | _, NaN => NaN
  | _, _ => if lt a b then b else a
  end.

(** [Math.abs(a)] *)
Definition abs (a : number) : number :=
  match a with
  | Fin x => Fin (Qabs x)
  | NaN => NaN
  | PosInf | NegInf => PosInf
  end.

(** [a * b] *)
Definition mul (a b : number) : number :=
  match a, b with
  | NaN, _ | _, NaN => NaN
  | Fin x, Fin y => Fin (x * y)
  | Fin x, PosInf | PosInf, Fin x =>
      if Qltb 0 x then PosInf else if Qltb x 0 then NegInf else NaN
  | Fin x, NegInf | NegInf, Fin x =>
      if Qltb 0 x then NegInf else if Qltb x 0 then PosInf else NaN
  | PosInf, PosInf | NegInf, NegInf => PosInf
  | PosInf, NegInf | NegInf, PosInf => NegInf
  end.

(** Truthiness of a number: [0] and [NaN] are falsy. *)
Definition truthy (a : number) : bool :=
  match a with
  | Fin x => negb (Qeq_bool x 0)
  | NaN => false
  | PosInf | NegInf => true
  end.

(** [a === b] on numbers. *)
Definition eqb (a b : number) : bool :=
  match a, b with
  | Fin x, Fin y => Qeq_bool x y
  | PosInf, PosInf | NegInf, NegInf => true
  | _, _ => false
  end.

(** The integral part of a rational, rounding toward zero. *)
Definition Qtrunc (x : Q) : Z := Z.quot (Qnum x) (Zpos (Qden x)).

(** Reduction of an integer modulo [2^16] into the signed range. *)
Definition wrap16 (z : Z) : Z := (z + 32768) mod 65536 - 32768.

(** [ToInt16]: the conversion applied by a store into an [Int16Array]. *)
Definition ToInt16 (a : number) : Z :=
  match a with
  | Fin x => wrap16 (Qtrunc x)
  | NaN | PosInf | NegInf => 0
  end.

Definition of_Z (z : Z) : number := Fin (inject_Z z).

End JsNum.

(** ** Sample Converter *)

Module SampleConverter.

(** [Math.max(-1, Math.min(1, s))] *)
Definition clamp (s : number) : number :=
  JsNum.max (JsNum.of_Z (-1)) (JsNum.min (JsNum.of_Z 1) s).

(** [sample < 0 ? sample * 0x8000 : sample * 0x7FFF] *)
Definition scale (sample : number) : number :=
  if JsNum.lt sample (JsNum.of_Z 0)
  then JsNum.mul sample (JsNum.of_Z 32768)
  else JsNum.mul sample (JsNum.of_Z 32767).

(** The value stored in [pcmData[i]] for the input sample [s]. *)
Definition convertSample (s : number) : Z :=
  JsNum.ToInt16 (scale (clamp s)).

(** The literal [0.01] is the binary64 number nearest to one hundredth,
    [5764607523034235 / 2^59]. *)
Definition SILENCE_THRESHOLD : number :=
  Fin (5764607523034235 # 576460752303423488).

(** [Math.abs(sample) > 0.01], on the clamped sample. *)
Definition isLoud (s : number) : bool :=
  JsNum.gt (JsNum.abs (clamp s)) SILENCE_THRESHOLD.

(** The clamp on rationals. *)
Definition clampQ (q : Q) : Q :=
  if JsNum.Qltb q 1 then (if JsNum.Qltb (-1) q then q else (-1)%Q) else 1%Q.

(** The scaled value of a clamped sample [c], rounded toward zero: up for a
    negative sample, down for the other ones. *)
Definition rounded (c : Q) : Z :=
  if JsNum.Qltb c 0 then Qceiling (c * 32768) else Qfloor (c * 32767).

(** The conversion as the specification words it: negative values are
    scaled by [32768] and rounded toward [-32768]. *)
Definition spec_convert (q : Q) : Z :=
  let c := clampQ q in
  if JsNum.Qltb c 0 then Qfloor (c * 32768) else Qfloor (c * 32767).

End SampleConverter.

(** ** JavaScript values and strings *)

(** The values a parsed JSON message can hold in a property, and
    [undefined] for a property that is absent.  Objects and arrays are only
    known by their identity. *)
Inductive value : Type :=
| JUndefined
| JNull
| JBool (b : bool)
| JNum (n : number)
| JStr (s : string)
| JObj (ref : nat).

(** What evaluating an expression comes to: a value, or an exception. *)
Inductive outcome (A : Type) : Type :=
| Returns (a : A)
| Throws.
Arguments Returns {A} a.
Arguments Throws {A}.

Module Js.

Definition truthy (v : value) : bool :=
  match v with
  | JUndefined | JNull => false
  | JBool b => b
  | JNum n => JsNum.truthy n
  | JStr s => negb (String.eqb s EmptyString)
  | JObj _ => true
  end.

(** [a || b] *)
Definition or (a b : value) : value := if truthy a then a else b.

(** [a === b] *)
Definition strict_eq (a b : value) : bool :=
  match a, b with
  | JUndefined, JUndefined | JNull, JNull => true
  | JBool x, JBool y => Bool.eqb x y
  | JNum x, JNum y => JsNum.eqb x y
  | JStr x, JStr y => String.eqb x y
  | JObj x, JObj y => Nat.eqb x y
  | _, _ => false
  end.

(** [s.split(' ')]: [word] is the piece read so far. *)
Fixpoint split_from (word s : string) : list string :=
  match s with
  | EmptyString => [word]
  | String c rest =>
      if Ascii.eqb c " "%char
      then word :: split_from EmptyString rest
      else split_from (word ++ String c EmptyString)%string rest
  end.

Definition split_space (s : string) : list string := split_from EmptyString s.

(** [words.join(' ')] *)
Fixpoint join_space (words : list string) : string :=
  match words with
  | [] => EmptyString
  | [w] => w
  | w :: rest => (w ++ " " ++ join_space rest)%string
  end.

(** [l.slice(-n)]: the last [n] elements. *)
Definition slice_last {A : Type} (n : nat) (l : list A) : list A :=
  skipn (List.length l - n) l.

(** The decimal form of an integer, as a template literal prints it. *)
Definition string_of_Z (z : Z) : string :=
  NilEmpty.string_of_int (Z.to_int z).

End Js.

(** ** Shared types ([types.ts]) *)

Inductive ConnectionState : Type :=
| disconnected
| connecting
| connected
| error.

Record LanguagePair : Type := { source : string; target : string }.

Inductive EntryType : Type := partial | final.

(** [TranscriptEntry].  The handler fills the fields from a parsed message
    of type [any], so at run time each of them may hold any value. *)
Record TranscriptEntry : Type := {
  id : string;
  type : EntryType;
  original : value;
  translated : value;
  detectedLanguage : value;
  confidence : value;
  timestamp : value;
  hasTranslation : value
}.

(** The properties of an inbound message that the client reads. *)
Record InboundData : Type := {
  data_type : value;
  data_original : value;
  data_translated : value;
  data_text : value;
  data_timestamp : value;
  data_has_translation : value;
  data_detectedLanguage : value;
  data_confidence : value;
  data_message : value
}.

(** The control messages the client sends. *)
Inductive OutMessage : Type :=
| session_init (sessionId : string) (sampleRate channels : Z)
    (service : string) (language_pair : LanguagePair) (language_set : string)
| update_language (language_pair : LanguagePair).

(** ** The platform: sockets and audio nodes *)

(** A [WebSocket] object, known by the order of its creation. *)
Definition Socket : Type := nat.

Inductive ReadyState : Type := CONNECTING | OPEN | CLOSING | CLOSED.

Inductive AudioContextState : Type := suspended | running | closed.

(** What the client does to the world around it, in the order it does it. *)
Inductive Effect : Type :=
| ConnectionChange (c : ConnectionState)
| SessionStart (sid : string)
| TranscriptUpdate (e : TranscriptEntry)
| SocketCreated (ws : Socket)
| SendText (ws : Socket) (m : OutMessage)
| SendBinary (ws : Socket) (pcm : list Z)
| SocketClose (ws : Socket) (code : option Z) (reason : option string)
| Resolved (ws : Socket)
| Rejected (why : string)
| TracksStopped
| ProcessorDisconnected
| AudioContextClosed
| FrameBufferCleared.

(** A candidate frame cut by the frame loop: the samples taken, what they
    convert to, whether any of them is loud, and whether the frame went out
    on the socket.  The list of candidates is kept for the proofs only. *)
Record Candidate : Type := {
  samples : list number;
  pcm : list Z;
  hasAudio : bool;
  transmitted : bool
}.

(** ** The state of the client

    The [useState] cells of [App] ([connectionState], [transcripts],
    [languagePair], [sessionId]), the cells and refs of [AudioCapture], the
    sockets the platform holds, and the two histories.  A ref to a platform
    object ([mediaStreamRef], [processorRef]) is [true] when it is set.
    [closureLanguagePair ws] is the [languagePair] that the callbacks of the
    socket [ws] closed over when [connectWebSocket] created it.  The error
    banner text, the refs to timers that the component never sets, and the
    recording test (MediaRecorder), which have no part in the audio path or
    the session, are left out. *)
Record State : Type := {
  connectionState : ConnectionState;
  transcripts : list TranscriptEntry;
  languagePair : LanguagePair;
  sessionId : string;
  isCapturing : bool;
  isWebSocketConnected : bool;
  mediaStreamRef : bool;
  audioContextRef : option AudioContextState;
  processorRef : bool;
  websocketRef : option Socket;
  sessionIdRef : string;
  frameBufferRef : list (list number);
  readyState : Socket -> ReadyState;
  closureLanguagePair : Socket -> LanguagePair;
  socketCount : nat;
  trace : list Effect;
  framed : list Candidate
}.

Definition set_connectionState (x : ConnectionState) (st : State) : State :=
  {| connectionState := x; transcripts := transcripts st;
     languagePair := languagePair st; sessionId := sessionId st;
     isCapturing := isCapturing st;
     isWebSocketConnected := isWebSocketConnected st;
     mediaStreamRef := mediaStreamRef st;
     audioContextRef := audioContextRef st; processorRef := processorRef st;
     websocketRef := websocketRef st; sessionIdRef := sessionIdRef st;
     frameBufferRef := frameBufferRef st; readyState := readyState st;
     closureLanguagePair := closureLanguagePair st;
     socketCount := socketCount st; trace := trace st; framed := framed st |}.

Definition set_transcripts (x : list TranscriptEntry) (st : State) : State :=
  {| connectionState := connectionState st; transcripts := x;
     languagePair := languagePair st; sessionId := sessionId st;
     isCapturing := isCapturing st;
     isWebSocketConnected := isWebSocketConnected st;
     mediaStreamRef := mediaStreamRef st;
     audioContextRef := audioContextRef st; processorRef := processorRef st;
     websocketRef := websocketRef st; sessionIdRef := sessionIdRef st;
     frameBufferRef := frameBufferRef st; readyState := readyState st;
     closureLanguagePair := closureLanguagePair st;
     socketCount := socketCount st; trace := trace st; framed := framed st |}.

Definition set_languagePair (x : LanguagePair) (st : State) : State :=
  {| connectionState := connectionState st; transcripts := transcripts st;
     languagePair := x; sessionId := sessionId st;
     isCapturing := isCapturing st;
     isWebSocketConnected := isWebSocketConnected st;
     mediaStreamRef := mediaStreamRef st;
     audioContextRef := audioContextRef st; processorRef := processorRef st;
     websocketRef := websocketRef st; sessionIdRef := sessionIdRef st;
     frameBufferRef := frameBufferRef st; readyState := readyState st;
     closureLanguagePair := closureLanguagePair st;
     socketCount := socketCount st; trace := trace st; framed := framed st |}.

Definition set_sessionId (x : string) (st : State) : State :=
  {| connectionState := connectionState st; transcripts := transcripts st;
     languagePair := languagePair st; sessionId := x;
     isCapturing := isCapturing st;
     isWebSocketConnected := isWebSocketConnected st;
     mediaStreamRef := mediaStreamRef st;
     audioContextRef := audioContextRef st; processorRef := processorRef st;
     websocketRef := websocketRef st; sessionIdRef := sessionIdRef st;
     frameBufferRef := frameBufferRef st; readyState := readyState st;
     closureLanguagePair := closureLanguagePair st;
     socketCount := socketCount st; trace := trace st; framed := framed st |}.

Definition set_isCapturing (x : bool) (st : State) : State :=
  {| connectionState := connectionState st; transcripts := transcripts st;
     languagePair := languagePair st; sessionId := sessionId st;
     isCapturing := x; isWebSocketConnected := isWebSocketConnected st;
     mediaStreamRef := mediaStreamRef st;
     audioContextRef := audioContextRef st; processorRef := processorRef st;
     websocketRef := websocketRef st; sessionIdRef := sessionIdRef st;
     frameBufferRef := frameBufferRef st; readyState := readyState st;
     closureLanguagePair := closureLanguagePair st;
     socketCount := socketCount st; trace := trace st; framed := framed st |}.

Definition set_isWebSocketConnected (x : bool) (st : State) : State :=
  {| connectionState := connectionState st; transcripts := transcripts st;
     languagePair := languagePair st; sessionId := sessionId st;
     isCapturing := isCapturing st; isWebSocketConnected := x;
     mediaStreamRef := mediaStreamRef st;
     audioContextRef := audioContextRef st; processorRef := processorRef st;
     websocketRef := websocketRef st; sessionIdRef := sessionIdRef st;
     frameBufferRef := frameBufferRef st; readyState := readyState st;
     closureLanguagePair := closureLanguagePair st;
     socketCount := socketCount st; trace := trace st; framed := framed st |}.

Definition set_mediaStreamRef (x : bool) (st : State) : State :=
  {| connectionState := connectionState st; transcripts := transcripts st;
     languagePair := languagePair st; sessionId := sessionId st;
     isCapturing := isCapturing st;
     isWebSocketConnected := isWebSocketConnected st; mediaStreamRef := x;
     audioContextRef := audioContextRef st; processorRef := processorRef st;
     websocketRef := websocketRef st; sessionIdRef := sessionIdRef st;
     frameBufferRef := frameBufferRef st; readyState := readyState st;
     closureLanguagePair := closureLanguagePair st;
     socketCount := socketCount st; trace := trace st; framed := framed st |}.

Definition set_audioContextRef (x : option AudioContextState) (st : State) : State :=
  {| connectionState := connectionState st; transcripts := transcripts st;
     languagePair := languagePair st; sessionId := sessionId st;
     isCapturing := isCapturing st;
     isWebSocketConnected := isWebSocketConnected st;
     mediaStreamRef := mediaStreamRef st; audioContextRef := x;
     processorRef := processorRef st; websocketRef := websocketRef st;
     sessionIdRef := sessionIdRef st; frameBufferRef := frameBufferRef st;
     readyState := readyState st;
     closureLanguagePair := closureLanguagePair st;
     socketCount := socketCount st; trace := trace st; framed := framed st |}.

Definition set_processorRef (x : bool) (st : State) : State :=
  {| connectionState := connectionState st; transcripts := transcripts st;
     languagePair := languagePair st; sessionId := sessionId st;
     isCapturing := isCapturing st;
     isWebSocketConnected := isWebSocketConnected st;
     mediaStreamRef := mediaStreamRef st;
     audioContextRef := audioContextRef st; processorRef := x;
     websocketRef := websocketRef st; sessionIdRef := sessionIdRef st;
     frameBufferRef := frameBufferRef st; readyState := readyState st;
     closureLanguagePair := closureLanguagePair st;
     socketCount := socketCount st; trace := trace st; framed := framed st |}.

Definition set_websocketRef (x : option Socket) (st : State) : State :=
  {| connectionState := connectionState st; transcripts := transcripts st;
     languagePair := languagePair st; sessionId := sessionId st;
     isCapturing := isCapturing st;
     isWebSocketConnected := isWebSocketConnected st;
     mediaStreamRef := mediaStreamRef st;
     audioContextRef := audioContextRef st; processorRef := processorRef st;
     websocketRef := x; sessionIdRef := sessionIdRef st;
     frameBufferRef := frameBufferRef st; readyState := readyState st;
     closureLanguagePair := closureLanguagePair st;
     socketCount := socketCount st; trace := trace st; framed := framed st |}.

Definition set_sessionIdRef (x : string) (st : State) : State :=
  {| connectionState := connectionState st; transcripts := transcripts st;
     languagePair := languagePair st; sessionId := sessionId st;
     isCapturing := isCapturing st;
     isWebSocketConnected := isWebSocketConnected st;
     mediaStreamRef := mediaStreamRef st;
     audioContextRef := audioContextRef st; processorRef := processorRef st;
     websocketRef := websocketRef st; sessionIdRef := x;
     frameBufferRef := frameBufferRef st; readyState := readyState st;
     closureLanguagePair := closureLanguagePair st;
     socketCount := socketCount st; trace := trace st; framed := framed st |}.

Definition set_frameBufferRef (x : list (list number)) (st : State) : State :=
  {| connectionState := connectionState st; transcripts := transcripts st;
     languagePair := languagePair st; sessionId := sessionId st;
     isCapturing := isCapturing st;
     isWebSocketConnected := isWebSocketConnected st;
     mediaStreamRef := mediaStreamRef st;
     audioContextRef := audioContextRef st; processorRef := processorRef st;
     websocketRef := websocketRef st; sessionIdRef := sessionIdRef st;
     frameBufferRef := x; readyState := readyState st;
     closureLanguagePair := closureLanguagePair st;
     socketCount := socketCount st; trace := trace st; framed := framed st |}.

Definition set_readyState (x : Socket -> ReadyState) (st : State) : State :=
  {| connectionState := connectionState st; transcripts := transcripts st;
     languagePair := languagePair st; sessionId := sessionId st;
     isCapturing := isCapturing st;
     isWebSocketConnected := isWebSocketConnected st;
     mediaStreamRef := mediaStreamRef st;
     audioContextRef := audioContextRef st; processorRef := processorRef st;
     websocketRef := websocketRef st; sessionIdRef := sessionIdRef st;
     frameBufferRef := frameBufferRef st; readyState := x;
     closureLanguagePair := closureLanguagePair st;
     socketCount := socketCount st; trace := trace st; framed := framed st |}.

Definition set_closureLanguagePair (x : Socket -> LanguagePair) (st : State) : State :=
  {| connectionState := connectionState st; transcripts := transcripts st;
     languagePair := languagePair st; sessionId := sessionId st;
     isCapturing := isCapturing st;
     isWebSocketConnected := isWebSocketConnected st;
     mediaStreamRef := mediaStreamRef st;
     audioContextRef := audioContextRef st; processorRef := processorRef st;
     websocketRef := websocketRef st; sessionIdRef := sessionIdRef st;
     frameBufferRef := frameBufferRef st; readyState := readyState st;
     closureLanguagePair := x; socketCount := socketCount st;
     trace := trace st; framed := framed st |}.

Definition set_socketCount (x : nat) (st : State) : State :=
  {| connectionState := connectionState st; transcripts := transcripts st;
     languagePair := languagePair st; sessionId := sessionId st;
     isCapturing := isCapturing st;
     isWebSocketConnected := isWebSocketConnected st;
     mediaStreamRef := mediaStreamRef st;
     audioContextRef := audioContextRef st; processorRef := processorRef st;
     websocketRef := websocketRef st; sessionIdRef := sessionIdRef st;
     frameBufferRef := frameBufferRef st; readyState := readyState st;
     closureLanguagePair := closureLanguagePair st; socketCount := x;
     trace := trace st; framed := framed st |}.

Definition set_trace (x : list Effect) (st : State) : State :=
  {| connectionState := connectionState st; transcripts := transcripts st;
     languagePair := languagePair st; sessionId := sessionId st;
     isCapturing := isCapturing st;
     isWebSocketConnected := isWebSocketConnected st;
     mediaStreamRef := mediaStreamRef st;
     audioContextRef := audioContextRef st; processorRef := processorRef st;
     websocketRef := websocketRef st; sessionIdRef := sessionIdRef st;
     frameBufferRef := frameBufferRef st; readyState := readyState st;
     closureLanguagePair := closureLanguagePair st;
     socketCount := socketCount st; trace := x; framed := framed st |}.

Definition set_framed (x : list Candidate) (st : State) : State :=
  {| connectionState := connectionState st; transcripts := transcripts st;
     languagePair := languagePair st; sessionId := sessionId st;
     isCapturing := isCapturing st;
     isWebSocketConnected := isWebSocketConnected st;
     mediaStreamRef := mediaStreamRef st;
     audioContextRef := audioContextRef st; processorRef := processorRef st;
     websocketRef := websocketRef st; sessionIdRef := sessionIdRef st;
     frameBufferRef := frameBufferRef st; readyState := readyState st;
     closureLanguagePair := closureLanguagePair st;
     socketCount := socketCount st; trace := trace st; framed := x |}.

Definition emit (e : Effect) (st : State) : State :=
  set_trace (trace st ++ [e]) st.

Definition update {A : Type} (f : Socket -> A) (ws : Socket) (a : A)
  : Socket -> A :=
  fun w => if Nat.eqb w ws then a else f w.

Definition initialState : State :=
  {| connectionState := disconnected; transcripts := [];
     languagePair := {| source := "auto"%string; target := "en"%string |};
     sessionId := EmptyString;
     isCapturing := false; isWebSocketConnected := false;
     mediaStreamRef := false; audioContextRef := None; processorRef := false;
     websocketRef := None; sessionIdRef := EmptyString; frameBufferRef := [];
     readyState := fun _ => CLOSED;
     closureLanguagePair :=
       fun _ => {| source := "auto"%string; target := "en"%string |};
     socketCount := 0%nat; trace := []; framed := [] |}.

(** ** [App]: the callbacks handed to [AudioCapture] *)

(** [handleConnectionChange] *)
Definition onConnectionChange (c : ConnectionState) (st : State) : State :=
  set_connectionState c (emit (ConnectionChange c) st).

(** [handleSessionStart] *)
Definition onSessionStart (sid : string) (st : State) : State :=
  let st := emit (SessionStart sid) st in
  let st := set_sessionId sid st in
  set_transcripts [] st.

(** [handleTranscriptUpdate] *)
Definition onTranscriptUpdate (e : TranscriptEntry) (st : State) : State :=
  let st := emit (TranscriptUpdate e) st in
  set_transcripts (transcripts st ++ [e]) st.

(** ** The [WebSocket] methods the client calls *)

(** [ws.send(data)]: throws while the socket is connecting, hands the data
    to the channel when it is open, and drops it once it is closing. *)
Definition ws_send (ws : Socket) (data : Effect) (st : State) : outcome State :=
  match readyState st ws with
  | CONNECTING => Throws
  | OPEN => Returns (emit data st)
  | CLOSING | CLOSED => Returns st
  end.

(** [ws.close(code, reason)]: no change once the socket is closing or
    closed; otherwise the socket starts closing. *)
Definition ws_close (ws : Socket) (code : option Z) (reason : option string)
  (st : State) : State :=
  let st := emit (SocketClose ws code reason) st in
  match readyState st ws with
  | CLOSING | CLOSED => st
  | CONNECTING | OPEN => set_readyState (update (readyState st) ws CLOSING) st
  end.

(** ** [AudioCapture]: session and connection *)

Definition SAMPLE_RATE : Z := 16000.
Definition FRAME_SIZE : nat := 2048.
Definition CHANNELS : Z := 1.

(** The template [`${tag}_${Date.now()}_${Math.random()...substr(2, 9)}`];
    [now] is the clock reading and [rnd] the random suffix. *)
Definition stamped (tag : string) (now : Z) (rnd : string) : string :=
  (tag ++ "_" ++ Js.string_of_Z now ++ "_" ++ rnd)%string.

Definition generateSessionId (now : Z) (rnd : string) : string :=
  stamped "session" now rnd.

(** The body of [connectWebSocket] up to the point where it returns the
    pending promise.  [created] tells whether [new WebSocket] returned
    (it throws on a malformed URL). *)
Definition connectWebSocket (created : bool) (st : State) : State :=
  let st := onConnectionChange connecting st in
  let st := set_isWebSocketConnected false st in
  if created then
    let ws := socketCount st in
    let st := set_socketCount (S ws) st in
    let st := set_readyState (update (readyState st) ws CONNECTING) st in
    let st :=
      set_closureLanguagePair
        (update (closureLanguagePair st) ws (languagePair st)) st in
    emit (SocketCreated ws) st
  else
    let st := onConnectionChange error st in
    let st := set_isWebSocketConnected false st in
    emit (Rejected "Failed to create Azure Speech WebSocket") st.

(** [ws.onopen] *)
Definition ws_onopen (ws : Socket) (now : Z) (rnd : string) (st : State)
  : State :=
  let st := onConnectionChange connected st in
  let st := set_isWebSocketConnected true st in
  let st := set_websocketRef (Some ws) st in
  let sessionId := generateSessionId now rnd in
  let st := set_sessionIdRef sessionId st in
  let st := onSessionStart sessionId st in
  match
    ws_send ws
      (SendText ws
         (session_init sessionId SAMPLE_RATE CHANNELS "azure_speech"
            (closureLanguagePair st ws) "indian")) st
  with
  | Throws => emit (Rejected "Error sending Azure init message") st
  | Returns st => emit (Resolved ws) st
  end.

(** The literal [0.9], the binary64 number [8106479329266893 / 2^53]. *)
Definition DEFAULT_CONFIDENCE : number :=
  Fin (8106479329266893 # 9007199254740992).

Definition partialEntry (now : Z) (rnd : string) (data : InboundData)
  : TranscriptEntry :=
  {| id := stamped "partial" now rnd;
     type := partial;
     original := Js.or (data_original data) (data_text data);
     translated := Js.or (data_translated data) (data_text data);
     detectedLanguage := JUndefined;
     confidence := JUndefined;
     timestamp := data_timestamp data;
     hasTranslation := Js.or (data_has_translation data) (JBool false) |}.

Definition finalEntry (now : Z) (rnd : string) (data : InboundData)
  : TranscriptEntry :=
  {| id := stamped "final" now rnd;
     type := final;
     original := data_original data;
     translated := Js.or (data_translated data) (data_original data);
     detectedLanguage := Js.or (data_detectedLanguage data) (JStr "unknown");
     confidence := Js.or (data_confidence data) (JNum DEFAULT_CONFIDENCE);
     timestamp := data_timestamp data;
     hasTranslation := JUndefined |}.

(** [handleAzureWebSocketMessage]: the [switch] on [data.type].  The cases
    [session_confirmed], [connection_status] and [ack] only write to the
    console, as does the default case. *)
Definition handleAzureWebSocketMessage (now : Z) (rnd : string)
  (data : InboundData) (st : State) : State :=
  match data_type data with
  | JStr t =>
      if String.eqb t "partial_transcript" then
        onTranscriptUpdate (partialEntry now rnd data) st
      else if String.eqb t "final_transcript" then
        onTranscriptUpdate (finalEntry now rnd data) st
      else if String.eqb t "error" then
        onConnectionChange error st
      else st
  | _ => st
  end.

(** [ws.onmessage]: [parsed] is [None] when [JSON.parse] throws or yields
    [null]; the exception is caught and logged. *)
Definition ws_onmessage (now : Z) (rnd : string) (parsed : option InboundData)
  (st : State) : State :=
  match parsed with
  | Some data => handleAzureWebSocketMessage now rnd data st
  | None => st
  end.

(** [ws.onerror] *)
Definition ws_onerror (ws : Socket) (st : State) : State :=
  let st := onConnectionChange error st in
  let st := set_isWebSocketConnected false st in
  emit (Rejected "WebSocket connection failed") st.

Definition is_current (ws : Socket) (st : State) : bool :=
  match websocketRef st with
  | Some w => Nat.eqb w ws
  | None => false
  end.

(** [ws.onclose] *)
Definition ws_onclose (ws : Socket) (st : State) : State :=
  if is_current ws st then
    let st := onConnectionChange disconnected st in
    let st := set_isWebSocketConnected false st in
    set_isCapturing false st
  else st.

Definition is_open (r : ReadyState) : bool :=
  match r with OPEN => true | _ => false end.

(** The callback that [connectWebSocket] schedules 10 seconds ahead. *)
Definition connectTimeout (ws : Socket) (st : State) : State :=
  if negb (is_open (readyState st ws)) then
    let st := ws_close ws None None st in
    emit (Rejected "WebSocket connection timeout") st
  else st.

(** [disconnectWebSocket] *)
Definition disconnectWebSocket (st : State) : State :=
  let st :=
    match websocketRef st with
    | Some ws =>
        let st := ws_close ws (Some 1000) (Some "User disconnected"%string) st in
        set_websocketRef None st
    | None => st
    end in
  let st := set_sessionIdRef EmptyString st in
  let st := set_isWebSocketConnected false st in
  onConnectionChange disconnected st.

(** The effect that follows a change of [languagePair]. *)
Definition languagePairEffect (st : State) : State :=
  match websocketRef st with
  | Some ws =>
      if is_open (readyState st ws)
         && negb (String.eqb (sessionIdRef st) EmptyString)
      then
        match ws_send ws (SendText ws (update_language (languagePair st))) st with
        | Returns st' => st'
        | Throws => st
        end
      else st
  | None => st
  end.

(** [handleLanguageChange] of [App], then the effect above. *)
Definition handleLanguageChange (newPair : LanguagePair) (st : State)
  : State :=
  languagePairEffect (set_languagePair newPair st).

(** ** [AudioCapture]: capture and framing *)

Local Open Scope nat_scope.

Global Opaque FRAME_SIZE.

(** The part of [startAudioCapture] that runs before its first [await]:
    the guard, the release of a previous stream and context, and the call
    of [connectWebSocket]. *)
Definition startAudioCapture (created : bool) (st : State) : State :=
  if isCapturing st then st
  else
    let st :=
      if mediaStreamRef st
      then set_mediaStreamRef false (emit TracksStopped st)
      else st in
    let st :=
      match audioContextRef st with
      | Some closed | None => st
      | Some _ => set_audioContextRef None (emit AudioContextClosed st)
      end in
    connectWebSocket created st.

(** The part of [startAudioCapture] after the tab audio has been granted:
    the stream, the context and the processor are stored. *)
Definition startAudioCapture_ready (st : State) : State :=
  let st := set_mediaStreamRef true st in
  let st := set_audioContextRef (Some running) st in
  let st := set_processorRef true st in
  set_isCapturing true st.

(** The [catch] block of [startAudioCapture]. *)
Definition startAudioCapture_failed (st : State) : State :=
  let st :=
    match websocketRef st with
    | Some ws =>
        let st := ws_close ws (Some 1000%Z) (Some "Setup failed"%string) st in
        set_websocketRef None st
    | None => st
    end in
  let st := onConnectionChange error st in
  set_isCapturing false st.

(** [stopAudioCapture] *)
Definition stopAudioCapture (st : State) : State :=
  let st :=
    if mediaStreamRef st
    then set_mediaStreamRef false (emit TracksStopped st)
    else st in
  let st :=
    if processorRef st
    then set_processorRef false (emit ProcessorDisconnected st)
    else st in
  let st :=
    match audioContextRef st with
    | Some closed => set_audioContextRef None st
    | Some _ => set_audioContextRef None (emit AudioContextClosed st)
    | None => st
    end in
  let st := set_frameBufferRef [] (emit FrameBufferCleared st) in
  set_isCapturing false st.

(** One turn of the [for] loop over a frame: [acc] is [pcmData] filled up to
    index [i], and [hasAudio].  A read past the end of [frameSamples] gives
    [undefined], which [Math.min] turns into [NaN].  The minimum and maximum
    that the loop also tracks are only logged. *)
Definition convertStep (frameSamples : list number) (acc : list Z * bool)
  (i : nat) : list Z * bool :=
  let sample := SampleConverter.clamp (nth i frameSamples NaN) in
  (fst acc ++ [JsNum.ToInt16 (SampleConverter.scale sample)],
   if JsNum.gt (JsNum.abs sample) SampleConverter.SILENCE_THRESHOLD
   then true else snd acc).

(** [for (let i = 0; i < FRAME_SIZE; i++) ...] *)
Definition convertFrame (frameSamples : list number) : list Z * bool :=
  fold_left (convertStep frameSamples) (seq 0 FRAME_SIZE) ([], false).

Definition logCandidate (c : Candidate) (st : State) : State :=
  set_framed (framed st ++ [c]) st.

(** The body of the [while] loop for one candidate frame: convert, skip a
    silent frame, send the other ones when the socket is open. *)
Definition emitFrame (frameSamples : list number) (st : State) : State :=
  let (pcmData, hasAudio) := convertFrame frameSamples in
  let candidate sent :=
    {| samples := frameSamples; pcm := pcmData; hasAudio := hasAudio;
       transmitted := sent |} in
  if negb hasAudio then logCandidate (candidate false) st
  else
    match websocketRef st with
    | Some ws =>
        if is_open (readyState st ws)
        then logCandidate (candidate true) (emit (SendBinary ws pcmData) st)
        else logCandidate (candidate false) st
    | None => logCandidate (candidate false) st
    end.

(** [while (accumulatedSamples.length >= FRAME_SIZE) ...]: each turn takes
    the first [FRAME_SIZE] samples off [accumulatedSamples]. *)
Equations? frameLoop (st : State) (accumulatedSamples : list number)
  : State * list number by wf (List.length accumulatedSamples) lt :=
  frameLoop st accumulatedSamples
    with le_lt_dec FRAME_SIZE (List.length accumulatedSamples) := {
    | left _ =>
        frameLoop (emitFrame (firstn FRAME_SIZE accumulatedSamples) st)
          (skipn FRAME_SIZE accumulatedSamples)
    | right _ => (st, accumulatedSamples) }.
Proof.
  rewrite length_skipn.
  assert (0 < FRAME_SIZE)
    by (with_strategy transparent [FRAME_SIZE] (unfold FRAME_SIZE); lia).
  lia.
Qed.

(** [processAudioFrames] *)
Definition processAudioFrames (st : State) : State :=
  match websocketRef st, frameBufferRef st with
  | None, _ | _, [] => st
  | Some _, _ =>
      let totalSamples :=
        fold_left (fun sum frame => sum + List.length frame)
          (frameBufferRef st) 0 in
      if FRAME_SIZE <=? totalSamples then
        let accumulatedSamples := List.concat (frameBufferRef st) in
        let st := set_frameBufferRef [] st in
        let (st, rest) := frameLoop st accumulatedSamples in
        match rest with
        | [] => st
        | _ => set_frameBufferRef (frameBufferRef st ++ [rest]) st
        end
      else st
  end.

(** [processor.onaudioprocess] *)
Definition onaudioprocess (inputData : list number) (st : State) : State :=
  match websocketRef st with
  | Some ws =>
      if is_open (readyState st ws) then
        processAudioFrames
          (set_frameBufferRef (frameBufferRef st ++ [inputData]) st)
      else st
  | None => st
  end.

(** The frame of the button [Send Test Audio Frame]:
    [new Int16Array(FRAME_SIZE).fill(0)]. *)
Definition testFrame : list Z := repeat 0%Z FRAME_SIZE.

(** The handler of that button: the test frame goes out as it is, without
    the silence test, on the current socket when it is open. *)
Definition sendTestFrame (st : State) : State :=
  match websocketRef st with
  | Some ws =>
      if is_open (readyState st ws) then
        match ws_send ws (SendBinary ws testFrame) st with
        | Returns st' => st'
        | Throws => st
        end
      else st
  | None => st
  end.

(** ** The event loop

    What can happen to the client: the user's clicks, the events of the
    platform on a socket, the timer of a connection attempt, the audio
    callback, and the two ways the asynchronous part of
    [startAudioCapture] can end.  A click is taken in every state, also
    where the component does not show its button or disables it, so the
    runs of the event loop include those of the interface.  The cleanup
    on unmount calls [stopAudioCapture], as the stop button does.  The
    button [Debug Audio State] and the recording buttons only log or record
    locally.  The keepalive [ping] is left out: its effect runs once, when
    the component mounts, finds no socket and arms no timer.  So is the
    liveness check, which resumes the audio context and logs. *)
Inductive Event : Type :=
| ClickConnect (created : bool)
| ClickDisconnect
| ClickStartCapture (created : bool)
| CaptureReady
| CaptureFailed
| ClickStopCapture
| ChangeLanguage (newPair : LanguagePair)
| SocketOpens (ws : Socket) (now : Z) (rnd : string)
| SocketMessage (ws : Socket) (now : Z) (rnd : string)
    (parsed : option InboundData)
| SocketFails (ws : Socket)
| SocketCloses (ws : Socket)
| TimeoutFires (ws : Socket)
| AudioProcess (inputData : list number)
| ClickSendTestFrame.

Definition set_ready (ws : Socket) (r : ReadyState) (st : State) : State :=
  set_readyState (update (readyState st) ws r) st.

(** One event.  The platform moves the socket to its new ready state before
    it calls the handler; an event on a socket that was never created, an
    open event on a socket that is not connecting, and an audio callback
    without a processor do not occur. *)
Definition step (st : State) (ev : Event) : State :=
  match ev with
  | ClickConnect created => connectWebSocket created st
  | ClickDisconnect => disconnectWebSocket st
  | ClickStartCapture created => startAudioCapture created st
  | CaptureReady => startAudioCapture_ready st
  | CaptureFailed => startAudioCapture_failed st
  | ClickStopCapture => stopAudioCapture st
  | ChangeLanguage newPair => handleLanguageChange newPair st
  | SocketOpens ws now rnd =>
      if ws <? socketCount st then
        match readyState st ws with
        | CONNECTING => ws_onopen ws now rnd (set_ready ws OPEN st)
        | _ => st
        end
      else st
  | SocketMessage ws now rnd parsed =>
      if ws <? socketCount st then
        match readyState st ws with
        | OPEN | CLOSING => ws_onmessage now rnd parsed st
        | _ => st
        end
      else st
  | SocketFails ws =>
      if ws <? socketCount st then ws_onerror ws (set_ready ws CLOSED st)
      else st
  | SocketCloses ws =>
      if ws <? socketCount st then ws_onclose ws (set_ready ws CLOSED st)
      else st
  | TimeoutFires ws =>
      if ws <? socketCount st then connectTimeout ws st else st
  | AudioProcess inputData =>
      if processorRef st then onaudioprocess inputData st else st
  | ClickSendTestFrame => sendTestFrame st
  end.

Definition run (st : State) (evs : list Event) : State :=
  fold_left step evs st.

(** The samples the accumulator holds. *)
Definition residual (st : State) : list number :=
  List.concat (frameBufferRef st).

(** The effects that [st'] has and [st] had not, when [st'] comes after. *)
Definition effectsSince (st st' : State) : list Effect :=
  skipn (List.length (trace st)) (trace st').

Definition candidatesSince (st st' : State) : list Candidate :=
  skipn (List.length (framed st)) (framed st').

Definition binaryPayload (e : Effect) : option (list Z) :=
  match e with
  | SendBinary _ pcm => Some pcm
  | _ => None
  end.

(** The audio frames among a list of effects, in order. *)
Fixpoint framesSent (es : list Effect) : list (list Z) :=
  match es with
  | [] => []
  | e :: rest =>
      match binaryPayload e with
      | Some pcm => pcm :: framesSent rest
      | None => framesSent rest
      end
  end.

(** ** [TranscriptDisplay]: the text projections *)

Module TranscriptDisplay.

Definition isPartial (t : TranscriptEntry) : bool :=
  match type t with partial => true | final => false end.

Definition isFinal (t : TranscriptEntry) : bool :=
  match type t with final => true | partial => false end.

(** [l[l.length - 1]] on a list that may be empty. *)
Definition latest {A : Type} (l : list A) : option A :=
  List.last (map Some l) None.

(** The limit to 50 words: [text.split(' ')], and when there are more than
    50 pieces, the last 50 joined again and followed by three dots. *)
Definition limitWords (text : string) : string :=
  let words := Js.split_space text in
  if 50 <? List.length words
  then (Js.join_space (Js.slice_last 50 words) ++ "...")%string
  else text.

(** [v.split(' ')] and what follows, on a value: only a string has a
    [split] method. *)
Definition limitWordsOf (v : value) : outcome string :=
  match v with
  | JStr text => Returns (limitWords text)
  | _ => Throws
  end.

(** The effect on [transcripts]: the next value of [currentPartial]. *)
Definition nextCurrentPartial (transcripts : list TranscriptEntry)
  (currentPartial : string) : outcome string :=
  match latest (filter isPartial transcripts) with
  | Some latestPartial => limitWordsOf (original latestPartial)
  | None => Returns currentPartial
  end.

(** [e.translated && e.translated !== e.original] *)
Definition hasOwnTranslation (e : TranscriptEntry) : bool :=
  Js.truthy (translated e) && negb (Js.strict_eq (translated e) (original e)).

(** [getCurrentTranslatedPartial] *)
Definition getCurrentTranslatedPartial (transcripts : list TranscriptEntry)
  (currentPartial : string) : outcome string :=
  if negb (String.eqb currentPartial EmptyString) then
    let fromFinals :=
      match latest (filter isFinal transcripts) with
      | Some latestFinal =>
          if hasOwnTranslation latestFinal
          then limitWordsOf (translated latestFinal)
          else Returns EmptyString
      | None => Returns EmptyString
      end in
    match latest (filter isPartial transcripts) with
    | Some latestPartial =>
        if hasOwnTranslation latestPartial
        then limitWordsOf (translated latestPartial)
        else fromFinals
    | None => fromFinals
    end
  else Returns EmptyString.

(** [getCurrentDetectedLanguage] *)
Definition getCurrentDetectedLanguage (transcripts : list TranscriptEntry)
  : value :=
  match latest (filter isPartial transcripts) with
  | Some latestPartial =>
      Js.or (detectedLanguage latestPartial) (JStr "unknown")
  | None => JStr "unknown"
  end.

End TranscriptDisplay.

(** ** Vocabulary of the statements *)

(** Whether the current socket is open. *)
Definition socketOpen (st : State) : bool :=
  match websocketRef st with
  | Some ws => is_open (readyState st ws)
  | None => false
  end.

(** Everything in the state but the frame buffer and the two histories. *)
Definition sessionView (st : State) :=
  (connectionState st, transcripts st, languagePair st, sessionId st,
   isCapturing st, isWebSocketConnected st, mediaStreamRef st,
   audioContextRef st, processorRef st, websocketRef st, sessionIdRef st,
   readyState st, closureLanguagePair st, socketCount st).

(** The absolute value of the clamped sample is above the threshold. *)
Definition aboveThreshold (s : number) : Prop :=
  match SampleConverter.clamp s, SampleConverter.SILENCE_THRESHOLD with
  | Fin c, Fin t => (t < Qabs c)%Q
  | _, _ => False
  end.

(** A multiple of [2^-30].  Every number a [Float32Array] can hold whose
    absolute value is at least [2^-7] is one. *)
Definition onGrid (c : Q) : Prop := exists n : Z, (c == n # 1073741824)%Q.

(** A candidate cut from the buffer while the socket was [open] or not:
    it has [FRAME_SIZE] samples, each converted, it is marked as having
    audio when a sample is loud, and it went out when it has audio and the
    socket was open. *)
Definition wellFormed (open : bool) (c : Candidate) : Prop :=
  List.length (samples c) = FRAME_SIZE /\
  pcm c = map SampleConverter.convertSample (samples c) /\
  hasAudio c = existsb SampleConverter.isLoud (samples c) /\
  transmitted c = hasAudio c && open.

(** The effects of a run of candidates on the socket [ws]. *)
Definition sendsOn (ws : Socket) (cands : list Candidate) : list Effect :=
  flat_map
    (fun c => if transmitted c then [SendBinary ws (pcm c)] else []) cands.

Definition sendsOf (st : State) (cands : list Candidate) : list Effect :=
  match websocketRef st with
  | Some ws => sendsOn ws cands
  | None => []
  end.

(** What the frame loop does with the samples it is given. *)
Definition loopPost (st : State) (acc : list number)
  (out : State * list number) : Prop :=
  exists cands,
    framed (fst out) = framed st ++ cands /\
    trace (fst out) = trace st ++ sendsOf st cands /\
    Forall (wellFormed (socketOpen st)) cands /\
    List.concat (map samples cands) ++ snd out = acc /\
    List.length (snd out) < FRAME_SIZE /\
    sessionView (fst out) = sessionView st /\
    frameBufferRef (fst out) = frameBufferRef st.

(** [feed chunks st]: the audio callback on each chunk in turn. *)
Definition feed (chunks : list (list number)) (st : State) : State :=
  fold_left (fun s inputData => onaudioprocess inputData s) chunks st.

(** A state in which the socket [0] is the current one and is open. *)
Definition streaming : State :=
  run initialState [ClickConnect true; SocketOpens 0 0 "r"; CaptureReady].

(** The effect is a [session_init] handed to the channel. *)
Definition isInit (e : Effect) : bool :=
  match e with
  | SendText _ (session_init _ _ _ _ _ _) => true
  | _ => false
  end.

(** Every report of [connected] in [es] comes after a [session_init] that
    the channel accepted since the report before it; [accepted] tells
    whether one was accepted before [es]. *)
Fixpoint initPrecedesConnected (accepted : bool) (es : list Effect) : bool :=
  match es with
  | [] => true
  | ConnectionChange connected :: rest =>
      accepted && initPrecedesConnected false rest
  | e :: rest => initPrecedesConnected (accepted || isInit e) rest
  end.

(** What the specification asks of stopping capture, from [st] to [st']:
    the callback is detached before the buffer is released, the residual is
    gone, the channel was closed with the code 1000, and the state is
    [disconnected]. *)
Definition stopsAsSpecified (st st' : State) : Prop :=
  (exists before between after,
      effectsSince st st'
      = before ++ ProcessorDisconnected :: between
          ++ FrameBufferCleared :: after) /\
  residual st' = [] /\
  (exists ws reason,
      In (SocketClose ws (Some 1000%Z) reason) (effectsSince st st')) /\
  connectionState st' = disconnected.

(** The effects of the three resources that [stopAudioCapture] releases
    before the frame buffer. *)
Definition releases (st : State) : list Effect :=
  (if mediaStreamRef st then [TracksStopped] else [])
  ++ (if processorRef st then [ProcessorDisconnected] else [])
  ++ match audioContextRef st with
     | Some closed | None => []
     | Some _ => [AudioContextClosed]
     end.

(** The call of [close] in [disconnectWebSocket]. *)
Definition closesCurrent (st : State) : list Effect :=
  match websocketRef st with
  | Some ws =>
      [SocketClose ws (Some 1000%Z) (Some "User disconnected"%string)]
  | None => []
  end.

(** A string without the character [_]. *)
Fixpoint underscoreFree (s : string) : bool :=
  match s with
  | EmptyString => true
  | String c rest => negb (Ascii.eqb c "_"%char) && underscoreFree rest
  end.

(** A [final_transcript] message that carries the text [text] and nothing
    else. *)
Definition finalMessage (text : string) : InboundData :=
  {| data_type := JStr "final_transcript";
     data_original := JStr text;
     data_translated := JUndefined;
     data_text := JUndefined;
     data_timestamp := JUndefined;
     data_has_translation := JUndefined;
     data_detectedLanguage := JUndefined;
     data_confidence := JUndefined;
     data_message := JUndefined |}.

(** A session that received one final transcript and then lost its socket
    to the remote side. *)
Definition droppedSession : State :=
  run initialState
    [ClickConnect true;
     SocketOpens 0 1700000000000%Z "k3j9x0q2a";
     SocketMessage 0 1700000000500%Z "p0o9i8u7y" (Some (finalMessage "hello"));
     SocketCloses 0].

(** A [final_transcript] message with a detected language and a
    confidence. *)
Definition finalMessageWith (text : string) (language confidenceValue : value)
  : InboundData :=
  {| data_type := JStr "final_transcript";
     data_original := JStr text;
     data_translated := JUndefined;
     data_text := JUndefined;
     data_timestamp := JUndefined;
     data_has_translation := JUndefined;
     data_detectedLanguage := language;
     data_confidence := confidenceValue;
     data_message := JUndefined |}.

(** A [partial_transcript] message in the old format: the recognised text
    under [text], no translation. *)
Definition partialMessage (text : string) : InboundData :=
  {| data_type := JStr "partial_transcript";
     data_original := JUndefined;
     data_translated := JUndefined;
     data_text := JStr text;
     data_timestamp := JUndefined;
     data_has_translation := JUndefined;
     data_detectedLanguage := JUndefined;
     data_confidence := JUndefined;
     data_message := JUndefined |}.

(** The translation of an entry, when there is an entry and its
    translation is not its original text. *)
Definition ownTranslation (e : option TranscriptEntry) : option value :=
  match e with
  | Some e =>
      if TranscriptDisplay.hasOwnTranslation e then Some (translated e)
      else None
  | None => None
  end.

(** The translation the projection picks: the one of the latest partial
    entry, or else the one of the latest final entry. *)
Definition pickedTranslation (ts : list TranscriptEntry) : option value :=
  match
    ownTranslation
      (TranscriptDisplay.latest (filter TranscriptDisplay.isPartial ts))
  with
  | Some v => Some v
  | None =>
      ownTranslation
        (TranscriptDisplay.latest (filter TranscriptDisplay.isFinal ts))
  end.

(** A number that is zero. *)
Definition isZero (v : value) : Prop :=
  match v with
  | JNum (Fin q) => (q == 0)%Q
  | _ => False
  end.

(** A final entry has its detected language and its confidence filled in,
    and the confidence is not zero. *)
Definition populated (e : TranscriptEntry) : Prop :=
  type e = final ->
  Js.truthy (detectedLanguage e) = true /\
  Js.truthy (confidence e) = true /\
  ~ isZero (confidence e).

(** The events of a connection attempt that times out: the callback of the
    timer, then the [error] and the [close] event that the platform fires
    on a socket whose connection [close()] has failed. *)
Definition timeoutAbort (ws : Socket) : list Event :=
  [TimeoutFires ws; SocketFails ws; SocketCloses ws].

(** The current socket is one that was created and has opened. *)
Definition currentOpened (st : State) : Prop :=
  forall ws,
    websocketRef st = Some ws ->
    ws < socketCount st /\ readyState st ws <> CONNECTING.

(** ** Vocabulary of the further properties *)

(** The effect is a [session_init] handed to the channel on [ws]. *)
Definition announces (ws : Socket) (e : Effect) : bool :=
  match e with
  | SendText w (session_init _ _ _ _ _ _) => Nat.eqb w ws
  | _ => false
  end.

Definition announced (ws : Socket) (es : list Effect) : bool :=
  existsb (announces ws) es.

(** No audio frame among the effects. *)
Definition noFrames (es : list Effect) : bool :=
  forallb
    (fun e => match binaryPayload e with None => true | Some _ => false end)
    es.

(** The sockets on which [session_init] went out, [inited] before [es] and
    the others in [es]; [None] when [es] has an audio frame on a socket
    before the [session_init] of that socket. *)
Fixpoint initedAfter (inited : list Socket) (es : list Effect)
  : option (list Socket) :=
  match es with
  | [] => Some inited
  | SendText ws (session_init _ _ _ _ _ _) :: rest =>
      initedAfter (ws :: inited) rest
  | SendBinary ws _ :: rest =>
      if existsb (Nat.eqb ws) inited then initedAfter inited rest else None
  | _ :: rest => initedAfter inited rest
  end.

(** A payload of [FRAME_SIZE] signed 16-bit values. *)
Definition isFrame (payload : list Z) : Prop :=
  List.length payload = FRAME_SIZE /\
  Forall (fun z => (-32768 <= z <= 32767)%Z) payload.

(** The trace is in order, and the current socket had its [session_init]. *)
Definition sessionStarted (st : State) : Prop :=
  exists inited,
    initedAfter [] (trace st) = Some inited /\
    (forall ws, websocketRef st = Some ws -> In ws inited).

(** A current socket comes with a session identifier in [sessionIdRef]. *)
Definition sessionKnown (st : State) : Prop :=
  forall ws, websocketRef st = Some ws -> sessionIdRef st <> EmptyString.

(** The types of message that [handleAzureWebSocketMessage] acts on. *)
Definition actedOn (t : value) : Prop :=
  t = JStr "partial_transcript" \/ t = JStr "final_transcript"
  \/ t = JStr "error".

(** ** [AudioProcessor]: the audio worklet *)

Module AudioWorklet.

Definition frameSize : nat := 1024.

(** The fields of the processor, and the messages it has posted on its
    port. *)
Record Processor := {
  sampleCount : nat;
  buffer : list number;
  posted : list (list Z)
}.

(** The constructor: [sampleCount = 0] and a [Float32Array(frameSize)]. *)
Definition constructed : Processor :=
  {| sampleCount := 0; buffer := repeat (Fin 0) frameSize; posted := [] |}.

(** [a[i] = x] on a typed array: nothing is stored out of range. *)
Fixpoint store (i : nat) (x : number) (a : list number) : list number :=
  match a, i with
  | [], _ => []
  | _ :: rest, 0 => x :: rest
  | y :: rest, S i => y :: store i x rest
  end.

(** The inner loop: [pcmData[j]] for [j < frameSize], from [buffer[j]];
    an index out of range reads [undefined], which [Math.min] turns into
    [NaN]. *)
Definition toPcm (buffer : list number) : list Z :=
  map (fun j => SampleConverter.convertSample (nth j buffer NaN))
    (seq 0 frameSize).

(** The body of the loop over [inputChannel]. *)
Definition processSample (p : Processor) (x : number) : Processor :=
  let buffer := store (sampleCount p) x (buffer p) in
  let sampleCount := S (sampleCount p) in
  if frameSize <=? sampleCount
  then {| sampleCount := 0; buffer := buffer;
          posted := posted p ++ [toPcm buffer] |}
  else {| sampleCount := sampleCount; buffer := buffer;
          posted := posted p |}.

(** [process(inputs, outputs, parameters)], on [inputs[0]], the channels
    of the first input. *)
Definition process (p : Processor) (input : list (list number)) : Processor :=
  match input with
  | inputChannel :: _ => fold_left processSample inputChannel p
  | [] => p
  end.

(** The calls of [process] on a processor, from its construction on. *)
Definition processAll (inputs : list (list (list number))) : Processor :=
  fold_left process inputs constructed.

(** The samples [process] reads from an input. *)
Definition heard (input : list (list number)) : list number :=
  match input with
  | inputChannel :: _ => inputChannel
  | [] => []
  end.

End AudioWorklet.

Global Opaque AudioWorklet.frameSize.

(** ** [LanguageSelector] *)

Module LanguageSelector.

(** What the user does with the two lists and the swap button. *)
Inductive Action : Type :=
| SelectSource (sourceCode : string)
| SelectTarget (targetCode : string)
| Swap.

(** [handleSourceChange]: the pair handed to [onChange], if it is called. *)
Definition handleSourceChange (value : LanguagePair) (sourceCode : string)
  : option LanguagePair :=
  if negb (String.eqb sourceCode (target value))
  then Some {| source := sourceCode; target := target value |}
  else None.

(** [handleTargetChange] *)
Definition handleTargetChange (value : LanguagePair) (targetCode : string)
  : option LanguagePair :=
  if negb (String.eqb targetCode (source value))
  then Some {| source := source value; target := targetCode |}
  else None.

(** [swapLanguages] *)
Definition swapLanguages (value : LanguagePair) : option LanguagePair :=
  Some {| source := target value; target := source value |}.

Definition handle (value : LanguagePair) (a : Action) : option LanguagePair :=
  match a with
  | SelectSource sourceCode => handleSourceChange value sourceCode
  | SelectTarget targetCode => handleTargetChange value targetCode
  | Swap => swapLanguages value
  end.

(** The component is controlled: its next [value] is the pair its parent
    received through [onChange], or the same [value] when [onChange] was
    not called. *)
Definition next (value : LanguagePair) (a : Action) : LanguagePair :=
  match handle value a with
  | Some newPair => newPair
  | None => value
  end.

End LanguageSelector.

(** ** The environment configuration *)

Module Env.

(** [import.meta.env]: absent, or a table from keys to strings. *)
Definition Environment : Type := option (string -> option string).

(** [env?.[key]] *)
Definition lookup (meta : Environment) (key : string) : option string :=
  match meta with
  | Some table => table key
  | None => None
  end.

(** [getEnvVar]: [env?.[key] || fallback]; the empty string is falsy. *)
Definition getEnvVar (meta : Environment) (key fallback : string) : string :=
  match lookup meta key with
  | Some v => if String.eqb v EmptyString then fallback else v
  | None => fallback
  end.

Record EnvironmentConfig := {
  apiBaseUrl : string;
  wsUrl : string;
  appTitle : string
}.

Definition env (meta : Environment) : EnvironmentConfig :=
  {| apiBaseUrl := getEnvVar meta "VITE_API_BASE_URL" "http://localhost:8000";
     wsUrl := getEnvVar meta "VITE_WS_URL" "ws://localhost:8000";
     appTitle := getEnvVar meta "VITE_APP_TITLE" "Real-Time Speech Translator" |}.

(** [s.replace(/^http/, 'ws')] *)
Definition replace_http (s : string) : string :=
  match s with
  | String "h" (String "t" (String "t" (String "p" rest))) =>
      ("ws" ++ rest)%string
  | _ => s
  end.

(** [getWebSocketUrl] *)
Definition getWebSocketUrl (meta : Environment) : string :=
  let apiBase := apiBaseUrl (env meta) in
  (replace_http apiBase ++ "/ws")%string.

End Env.

(** ** Vocabulary of the properties of the components *)

(** The string holds no space. *)
Fixpoint spaceFree (s : string) : bool :=
  match s with
  | EmptyString => true
  | String c rest => negb (Ascii.eqb c " "%char) && spaceFree rest
  end.

(** No partial entry of the log carries a detected language. *)
Definition partialsUndetected (log : list TranscriptEntry) : Prop :=
  Forall (fun e => type e = partial -> detectedLanguage e = JUndefined) log.

(** The two languages of the pair differ. *)
Definition distinctLanguages (value : LanguagePair) : Prop :=
  source value <> target value.

(** What holds of a worklet processor that has read the samples [all]. *)
Definition hasRead (p : AudioWorklet.Processor) (all : list number) : Prop :=
  List.length (AudioWorklet.buffer p) = AudioWorklet.frameSize /\
  AudioWorklet.sampleCount p < AudioWorklet.frameSize /\
  exists blocks,
    AudioWorklet.posted p = map (map SampleConverter.convertSample) blocks /\
    Forall (fun b => List.length b = AudioWorklet.frameSize) blocks /\
    List.concat blocks
    ++ firstn (AudioWorklet.sampleCount p) (AudioWorklet.buffer p)
    = all.

(** * Properties *)

Lemma FRAME_SIZE_eq : FRAME_SIZE = 2048.
Proof. reflexivity. Qed.

Lemma FRAME_SIZE_pos : 0 < FRAME_SIZE.
Proof. rewrite FRAME_SIZE_eq. lia. Qed.

Example frameLoop_runs :
  let chunk := repeat (Fin (1 # 2)) 3000 in
  let st := set_ready 0 OPEN (set_websocketRef (Some 0) initialState) in
  let st' := onaudioprocess chunk st in
  (List.length (framesSent (trace st')), List.length (residual st')) = (1, 952).
Proof. vm_compute. reflexivity. Qed.

(** ** Sample Converter *)

Section SampleConverterFacts.

Import SampleConverter.

Lemma Qltb_lt (x y : Q) : JsNum.Qltb x y = true <-> (x < y)%Q.
Proof.
  unfold JsNum.Qltb. rewrite negb_true_iff.
  split; intro H.
  - apply Qnot_le_lt. intro Hle. apply Qle_bool_iff in Hle. congruence.
  - destruct (Qle_bool y x) eqn:E; [ | reflexivity ].
    apply Qle_bool_iff in E. exfalso. exact (Qlt_not_le _ _ H E).
Qed.

Lemma Qltb_ge (x y : Q) : JsNum.Qltb x y = false <-> (y <= x)%Q.
Proof.
  unfold JsNum.Qltb. rewrite negb_false_iff. apply Qle_bool_iff.
Qed.

Lemma Qltb_comp (x x' y y' : Q) :
  (x == x')%Q -> (y == y')%Q -> JsNum.Qltb x y = JsNum.Qltb x' y'.
Proof.
  intros Hx Hy.
  destruct (JsNum.Qltb x y) eqn:E; symmetry.
  - apply Qltb_lt. rewrite <- Hx, <- Hy. apply Qltb_lt. exact E.
  - apply Qltb_ge. rewrite <- Hx, <- Hy. apply Qltb_ge. exact E.
Qed.

Lemma Qtrunc_nonneg (x : Q) : (0 <= x)%Q -> JsNum.Qtrunc x = Qfloor x.
Proof.
  destruct x as [n d]. unfold Qle, JsNum.Qtrunc, Qfloor. simpl. intro H.
  apply Z.quot_div_nonneg; lia.
Qed.

Lemma Qtrunc_nonpos (x : Q) : (x <= 0)%Q -> JsNum.Qtrunc x = Qceiling x.
Proof.
  destruct x as [n d]. unfold Qle, JsNum.Qtrunc, Qceiling, Qfloor. simpl.
  intro H.
  replace n with (- - n)%Z at 1 by lia.
  rewrite Z.quot_opp_l by lia.
  f_equal. apply Z.quot_div_nonneg; lia.
Qed.

Lemma clamp_finite (q : Q) : clamp (Fin q) = Fin (clampQ q).
Proof.
  unfold clamp, clampQ, JsNum.min, JsNum.max, JsNum.of_Z, JsNum.lt.
  change (inject_Z 1) with 1%Q. change (inject_Z (-1)) with (-1)%Q.
  destruct (JsNum.Qltb q 1) eqn:E1.
  - destruct (JsNum.Qltb (-1) q); reflexivity.
  - reflexivity.
Qed.

Lemma clampQ_range (q : Q) : (-1 <= clampQ q <= 1)%Q.
Proof.
  unfold clampQ.
  destruct (JsNum.Qltb q 1) eqn:E1.
  - destruct (JsNum.Qltb (-1) q) eqn:E2.
    + apply Qltb_lt in E1, E2. split; apply Qlt_le_weak; assumption.
    + split; [ apply Qle_refl | discriminate ].
  - split; [ discriminate | apply Qle_refl ].
Qed.

Lemma clampQ_comp (q q' : Q) : (q == q')%Q -> (clampQ q == clampQ q')%Q.
Proof.
  intro H. unfold clampQ.
  rewrite (Qltb_comp q q' 1 1 H (Qeq_refl 1)).
  rewrite (Qltb_comp (-1) (-1) q q' (Qeq_refl _) H).
  destruct (JsNum.Qltb q' 1); [ destruct (JsNum.Qltb (-1) q') | ];
    try reflexivity; exact H.
Qed.

Lemma rounded_range (c : Q) :
  (-1 <= c <= 1)%Q -> (-32768 <= rounded c <= 32767)%Z.
Proof.
  intros [Hlo Hhi]. unfold rounded.
  destruct (JsNum.Qltb c 0) eqn:E.
  - apply Qltb_lt in E.
    assert (H1 : (inject_Z (-32768) <= c * 32768)%Q).
    { change (inject_Z (-32768)) with ((-1) * 32768)%Q.
      apply Qmult_le_compat_r; [ exact Hlo | discriminate ]. }
    assert (H2 : (c * 32768 <= inject_Z 0)%Q).
    { change (inject_Z 0) with (0 * 32768)%Q.
      apply Qmult_le_compat_r; [ apply Qlt_le_weak; exact E | discriminate ]. }
    apply Qceiling_resp_le in H1, H2. rewrite Qceiling_Z in H1, H2. lia.
  - apply Qltb_ge in E.
    assert (H1 : (inject_Z 0 <= c * 32767)%Q).
    { change (inject_Z 0) with (0 * 32767)%Q.
      apply Qmult_le_compat_r; [ exact E | discriminate ]. }
    assert (H2 : (c * 32767 <= inject_Z 32767)%Q).
    { change (inject_Z 32767) with (1 * 32767)%Q.
      apply Qmult_le_compat_r; [ exact Hhi | discriminate ]. }
    apply Qfloor_resp_le in H1, H2. rewrite Qfloor_Z in H1, H2. lia.
Qed.

Lemma wrap16_small (z : Z) :
  (-32768 <= z <= 32767)%Z -> JsNum.wrap16 z = z.
Proof.
  intro H. unfold JsNum.wrap16. rewrite Z.mod_small; lia.
Qed.

Lemma convertSample_finite (q : Q) :
  convertSample (Fin q) = rounded (clampQ q).
Proof.
  unfold convertSample. rewrite clamp_finite.
  pose proof (rounded_range _ (clampQ_range q)) as Hr.
  unfold scale, rounded in *. unfold JsNum.lt, JsNum.of_Z.
  change (inject_Z 0) with 0%Q.
  destruct (JsNum.Qltb (clampQ q) 0) eqn:E; simpl.
  - change (inject_Z 32768) with 32768%Q.
    rewrite Qtrunc_nonpos.
    + apply wrap16_small. exact Hr.
    + apply Qltb_lt in E.
      change 0%Q with (0 * 32768)%Q.
      apply Qmult_le_compat_r; [ apply Qlt_le_weak; exact E | discriminate ].
  - change (inject_Z 32767) with 32767%Q.
    rewrite Qtrunc_nonneg.
    + apply wrap16_small. exact Hr.
    + apply Qltb_ge in E.
      change 0%Q with (0 * 32767)%Q.
      apply Qmult_le_compat_r; [ exact E | discriminate ].
Qed.

Lemma rounded_comp (c c' : Q) : (c == c')%Q -> rounded c = rounded c'.
Proof.
  intro H. unfold rounded.
  rewrite (Qltb_comp c c' 0 0 H (Qeq_refl 0)).
  destruct (JsNum.Qltb c' 0); [ apply Qceiling_comp | apply Qfloor_comp ];
    rewrite H; reflexivity.
Qed.

End SampleConverterFacts.

(** [NaN] passes through the clamp and is stored as [0]. *)
Lemma convertSample_NaN :
  SampleConverter.clamp NaN = NaN /\ SampleConverter.convertSample NaN = 0%Z.
Proof. split; reflexivity. Qed.

(** C1 (as amended).  For every sample other than [NaN] the converter
    clamps the sample to [-1, 1] and stores the scaled value rounded toward
    zero: a negative clamped sample is scaled by 32768 and rounded up, any
    other one is scaled by 32767 and rounded down.  The stored value lies
    in the signed 16-bit range, [1.0] gives [32767], [-1.0] gives [-32768],
    [0.0] gives [0], and equal samples give equal values. *)
Theorem convertSample_rounds_toward_zero :
  (forall q : Q,
      SampleConverter.clamp (Fin q) = Fin (SampleConverter.clampQ q) /\
      (-1 <= SampleConverter.clampQ q <= 1)%Q /\
      SampleConverter.convertSample (Fin q)
      = SampleConverter.rounded (SampleConverter.clampQ q) /\
      (-32768 <= SampleConverter.convertSample (Fin q) <= 32767)%Z) /\
  (SampleConverter.clamp PosInf = Fin 1 /\
   SampleConverter.convertSample PosInf = SampleConverter.rounded 1 /\
   SampleConverter.clamp NegInf = Fin (-1) /\
   SampleConverter.convertSample NegInf = SampleConverter.rounded (-1)) /\
  SampleConverter.convertSample (Fin 1) = 32767%Z /\
  SampleConverter.convertSample (Fin (-1)) = (-32768)%Z /\
  SampleConverter.convertSample (Fin 0) = 0%Z /\
  (forall q q' : Q,
      (q == q')%Q ->
      SampleConverter.convertSample (Fin q)
      = SampleConverter.convertSample (Fin q')).
Proof.
  split; [ | split; [ | split; [ | split; [ | split ] ] ] ].
  - intro q. split; [ apply clamp_finite | ].
    split; [ apply clampQ_range | ].
    split; [ apply convertSample_finite | ].
    rewrite convertSample_finite.
    apply rounded_range, clampQ_range.
  - repeat split; vm_compute; reflexivity.
  - vm_compute. reflexivity.
  - vm_compute. reflexivity.
  - vm_compute. reflexivity.
  - intros q q' H. rewrite !convertSample_finite.
    apply rounded_comp, clampQ_comp, H.
Qed.

Lemma convertSample_rounds_toward_zero_witness :
  SampleConverter.convertSample (Fin (1 # 2))
  = SampleConverter.convertSample (Fin (2 # 4)).
Proof.
  apply (proj2 (proj2 (proj2 (proj2 (proj2
           convertSample_rounds_toward_zero))))).
  reflexivity.
Defined.

(** C1 (as stated) fails: the sample [-2^-16] scales to [-1/2], which is
    stored as [0]; rounding toward [-32768] would give [-1]. *)
Lemma convertSample_not_toward_minimum :
  SampleConverter.convertSample (Fin (-1 # 65536))
  <> SampleConverter.spec_convert (-1 # 65536).
Proof. vm_compute. discriminate. Qed.

(** ** Frame conversion *)

Section FrameConversion.

Import SampleConverter.

Lemma convertStep_fold (frameSamples : list number) (idx : list nat)
  (pcm0 : list Z) (loud0 : bool) :
  fold_left (convertStep frameSamples) idx (pcm0, loud0)
  = (pcm0 ++ map (fun i => convertSample (nth i frameSamples NaN)) idx,
     loud0 || existsb (fun i => isLoud (nth i frameSamples NaN)) idx).
Proof.
  revert pcm0 loud0.
  induction idx as [ | i idx IH ]; intros pcm0 loud0; simpl.
  - rewrite app_nil_r, orb_false_r. reflexivity.
  - rewrite (surjective_pairing (convertStep frameSamples (pcm0, loud0) i)).
    rewrite IH. unfold convertStep. cbn [fst snd map existsb].
    rewrite <- app_assoc. cbn [app].
    change (JsNum.gt (JsNum.abs (clamp (nth i frameSamples NaN)))
              SILENCE_THRESHOLD)
      with (isLoud (nth i frameSamples NaN)).
    change (JsNum.ToInt16 (scale (clamp (nth i frameSamples NaN))))
      with (convertSample (nth i frameSamples NaN)).
    f_equal.
    destruct (isLoud (nth i frameSamples NaN)), loud0; reflexivity.
Qed.

Lemma map_nth_all {A B : Type} (f : A -> B) (d : A) (l : list A) :
  map (fun i => f (nth i l d)) (seq 0 (List.length l)) = map f l.
Proof.
  induction l as [ | x l IH ]; [ reflexivity | ].
  simpl. f_equal. rewrite <- seq_shift, map_map. exact IH.
Qed.

Lemma existsb_on_map {A B : Type} (f : B -> bool) (g : A -> B) (l : list A) :
  existsb f (map g l) = existsb (fun x => f (g x)) l.
Proof.
  induction l as [ | x l IH ]; [ reflexivity | ].
  simpl. rewrite IH. reflexivity.
Qed.

Lemma existsb_nth_all {A : Type} (f : A -> bool) (d : A) (l : list A) :
  existsb (fun i => f (nth i l d)) (seq 0 (List.length l)) = existsb f l.
Proof.
  induction l as [ | x l IH ]; [ reflexivity | ].
  simpl. f_equal. rewrite <- seq_shift, existsb_on_map. exact IH.
Qed.

(** On a frame of [FRAME_SIZE] samples the loop converts every sample and
    raises [hasAudio] when one of them is loud. *)
Lemma convertFrame_full (frameSamples : list number) :
  List.length frameSamples = FRAME_SIZE ->
  convertFrame frameSamples
  = (map convertSample frameSamples, existsb isLoud frameSamples).
Proof.
  intro Hlen. unfold convertFrame. rewrite convertStep_fold. simpl.
  rewrite <- Hlen, map_nth_all, existsb_nth_all. reflexivity.
Qed.

End FrameConversion.

(** ** Frame Accumulator *)

Section FrameAccumulator.

Lemma emit_trace (e : Effect) (st : State) : trace (emit e st) = trace st ++ [e].
Proof. reflexivity. Qed.

Lemma sendsOn_app (ws : Socket) (a b : list Candidate) :
  sendsOn ws (a ++ b) = sendsOn ws a ++ sendsOn ws b.
Proof. unfold sendsOn. apply flat_map_app. Qed.

Lemma sendsOf_app (st : State) (a b : list Candidate) :
  sendsOf st (a ++ b) = sendsOf st a ++ sendsOf st b.
Proof.
  unfold sendsOf. destruct (websocketRef st); [ apply sendsOn_app | reflexivity ].
Qed.

(** What one turn of the frame loop does. *)
Lemma emitFrame_spec (frameSamples : list number) (st : State) :
  List.length frameSamples = FRAME_SIZE ->
  exists c,
    framed (emitFrame frameSamples st) = framed st ++ [c] /\
    trace (emitFrame frameSamples st) = trace st ++ sendsOf st [c] /\
    wellFormed (socketOpen st) c /\
    samples c = frameSamples /\
    sessionView (emitFrame frameSamples st) = sessionView st /\
    frameBufferRef (emitFrame frameSamples st) = frameBufferRef st.
Proof.
  intro Hlen. unfold emitFrame. rewrite (convertFrame_full _ Hlen).
  unfold socketOpen, sendsOf, sendsOn, wellFormed.
  destruct (existsb SampleConverter.isLoud frameSamples) eqn:Hloud;
    cbn [negb].
  - destruct (websocketRef st) as [ ws | ] eqn:Hws.
    + destruct (is_open (readyState st ws)) eqn:Hopen.
      * eexists. repeat split; cbn; rewrite ?Hws, ?Hloud, ?app_nil_r;
          try reflexivity; assumption.
      * eexists. repeat split; cbn; rewrite ?Hws, ?Hloud, ?app_nil_r;
          try reflexivity; assumption.
    + eexists. repeat split; cbn; rewrite ?Hws, ?Hloud, ?app_nil_r;
        try reflexivity; assumption.
  - eexists. repeat split; cbn; rewrite ?Hloud, ?app_nil_r;
      try reflexivity; try assumption.
    destruct (websocketRef st); rewrite ?app_nil_r; reflexivity.
Qed.

Lemma view_websocketRef (st st' : State) :
  sessionView st' = sessionView st -> websocketRef st' = websocketRef st.
Proof. unfold sessionView. congruence. Qed.

Lemma view_readyState (st st' : State) :
  sessionView st' = sessionView st -> readyState st' = readyState st.
Proof. unfold sessionView. congruence. Qed.

Lemma socketOpen_view (st st' : State) :
  sessionView st' = sessionView st -> socketOpen st' = socketOpen st.
Proof.
  intro H. unfold socketOpen.
  rewrite (view_websocketRef _ _ H), (view_readyState _ _ H). reflexivity.
Qed.

Lemma sendsOf_view (st st' : State) (cands : list Candidate) :
  sessionView st' = sessionView st -> sendsOf st' cands = sendsOf st cands.
Proof.
  intro H. unfold sendsOf. rewrite (view_websocketRef _ _ H). reflexivity.
Qed.

Lemma frameLoop_spec (st : State) (acc : list number) :
  loopPost st acc (frameLoop st acc).
Proof.
  funelim (frameLoop st acc).
  - (* a full frame is available *)
    clear Heq Heqcall.
    assert (Hlen : List.length (firstn FRAME_SIZE accumulatedSamples)
                   = FRAME_SIZE)
      by (rewrite length_firstn; lia).
    destruct (emitFrame_spec _ st Hlen)
      as (c & Hf & Ht & Hwf & Hs & Hview & Hbuf).
    destruct H as (cands & Hf' & Ht' & Hwf' & Hcat & Hrest & Hview' & Hbuf').
    exists (c :: cands). repeat split.
    + rewrite Hf', Hf, <- app_assoc. reflexivity.
    + rewrite Ht', Ht, (sendsOf_view _ _ _ Hview), <- app_assoc.
      rewrite <- sendsOf_app. reflexivity.
    + constructor; [ exact Hwf | ].
      rewrite <- (socketOpen_view _ _ Hview). exact Hwf'.
    + cbn [map List.concat]. rewrite Hs, <- app_assoc, Hcat.
      apply firstn_skipn.
    + exact Hrest.
    + congruence.
    + congruence.
  - (* less than a frame is left *)
    exists []. cbn [fst snd map List.concat app].
    unfold sendsOf. destruct (websocketRef st); cbn; rewrite ?app_nil_r;
      repeat split; try reflexivity; (constructor || assumption).
Qed.

Lemma totalSamples_length (buffer : list (list number)) (n : nat) :
  fold_left (fun sum frame => sum + List.length frame) buffer n
  = n + List.length (List.concat buffer).
Proof.
  revert n. induction buffer as [ | frame buffer IH ]; intro n; simpl.
  - lia.
  - rewrite IH, length_app. lia.
Qed.

(** What a call of [processAudioFrames] does: the candidates it cuts, put
    before what it leaves in the buffer, are what the buffer held; with a
    socket in place it leaves less than a frame. *)
Lemma processAudioFrames_spec (st : State) :
  exists cands,
    framed (processAudioFrames st) = framed st ++ cands /\
    trace (processAudioFrames st) = trace st ++ sendsOf st cands /\
    Forall (wellFormed (socketOpen st)) cands /\
    List.concat (map samples cands) ++ residual (processAudioFrames st)
    = residual st /\
    (websocketRef st <> None ->
     List.length (residual (processAudioFrames st)) < FRAME_SIZE) /\
    sessionView (processAudioFrames st) = sessionView st.
Proof.
  assert (Hnone : forall s : State,
             framed s = framed s ++ [] /\
             trace s = trace s ++ sendsOf s [] /\
             Forall (wellFormed (socketOpen s)) [] /\
             List.concat (map samples []) ++ residual s = residual s).
  { intro s. unfold sendsOf. destruct (websocketRef s); cbn;
      rewrite !app_nil_r; repeat split; constructor. }
  unfold processAudioFrames.
  destruct (websocketRef st) as [ ws | ] eqn:Hws.
  2:{ exists []. destruct (Hnone st) as (? & ? & ? & ?).
      repeat split; try assumption. intro Habs. congruence. }
  destruct (frameBufferRef st) as [ | frame buffer ] eqn:Hbuf.
  { exists []. destruct (Hnone st) as (? & ? & ? & ?).
    repeat split; try assumption.
    intros _. unfold residual. rewrite Hbuf. apply FRAME_SIZE_pos. }
  rewrite <- Hbuf. rewrite totalSamples_length. cbn [Nat.add].
  destruct (FRAME_SIZE <=? List.length (List.concat (frameBufferRef st)))
    eqn:Hfull.
  2:{ exists []. destruct (Hnone st) as (? & ? & ? & ?).
      repeat split; try assumption.
      intros _. apply Nat.leb_gt in Hfull. exact Hfull. }
  pose proof (frameLoop_spec (set_frameBufferRef [] st)
                (List.concat (frameBufferRef st))) as Hloop.
  destruct (frameLoop (set_frameBufferRef [] st)
              (List.concat (frameBufferRef st))) as [ st1 rest ].
  destruct Hloop as (cands & Hf & Ht & Hwf & Hcat & Hrest & Hview & Hb).
  cbn [fst snd] in *.
  exists cands.
  assert (Hres : residual
                   match rest with
                   | [] => st1
                   | _ :: _ => set_frameBufferRef (frameBufferRef st1 ++ [rest]) st1
                   end = rest).
  { unfold residual. destruct rest as [ | x rest ].
    - rewrite Hb. reflexivity.
    - cbn. rewrite Hb. cbn. rewrite app_nil_r. reflexivity. }
  rewrite Hres.
  destruct rest as [ | x rest ]; repeat split; try assumption.
  all: try (intros _; exact Hrest).
  all: try (unfold sendsOf in *; cbn in Ht; rewrite Hws in *; exact Ht).
Qed.

(** What the audio callback does while the current socket is open. *)
Lemma onaudioprocess_open (inputData : list number) (st : State) :
  socketOpen st = true ->
  exists cands,
    framed (onaudioprocess inputData st) = framed st ++ cands /\
    trace (onaudioprocess inputData st) = trace st ++ sendsOf st cands /\
    Forall (wellFormed true) cands /\
    List.concat (map samples cands) ++ residual (onaudioprocess inputData st)
    = residual st ++ inputData /\
    List.length (residual (onaudioprocess inputData st)) < FRAME_SIZE /\
    sessionView (onaudioprocess inputData st) = sessionView st.
Proof.
  intro Hopen. unfold onaudioprocess.
  unfold socketOpen in Hopen.
  destruct (websocketRef st) as [ ws | ] eqn:Hws; [ | discriminate ].
  rewrite Hopen.
  set (st0 := set_frameBufferRef (frameBufferRef st ++ [inputData]) st).
  destruct (processAudioFrames_spec st0)
    as (cands & Hf & Ht & Hwf & Hcat & Hrest & Hview).
  exists cands. repeat split.
  - exact Hf.
  - rewrite Ht. unfold sendsOf. reflexivity.
  - replace true with (socketOpen st0); [ exact Hwf | ].
    unfold socketOpen, st0. cbn. rewrite Hws. exact Hopen.
  - rewrite Hcat. unfold residual, st0. cbn.
    rewrite concat_app. cbn. rewrite app_nil_r. reflexivity.
  - apply Hrest. unfold st0. cbn. congruence.
  - rewrite Hview. reflexivity.
Qed.

(** While the current socket is not open the callback does nothing. *)
Lemma onaudioprocess_closed (inputData : list number) (st : State) :
  socketOpen st = false -> onaudioprocess inputData st = st.
Proof.
  unfold socketOpen, onaudioprocess. intro H.
  destruct (websocketRef st); [ rewrite H | ]; reflexivity.
Qed.

(** A run of chunks while the current socket is open. *)
Lemma feed_open (chunks : list (list number)) (st : State) :
  socketOpen st = true ->
  List.length (residual st) < FRAME_SIZE ->
  exists cands,
    framed (feed chunks st) = framed st ++ cands /\
    trace (feed chunks st) = trace st ++ sendsOf st cands /\
    Forall (wellFormed true) cands /\
    List.concat (map samples cands) ++ residual (feed chunks st)
    = residual st ++ List.concat chunks /\
    List.length (residual (feed chunks st)) < FRAME_SIZE /\
    sessionView (feed chunks st) = sessionView st.
Proof.
  revert st. induction chunks as [ | inputData chunks IH ]; intros st Hopen Hres.
  - exists []. cbn. unfold sendsOf. destruct (websocketRef st); cbn;
      rewrite !app_nil_r; repeat split; (constructor || assumption).
  - cbn [feed fold_left].
    destruct (onaudioprocess_open inputData st Hopen)
      as (c1 & Hf1 & Ht1 & Hwf1 & Hcat1 & Hres1 & Hview1).
    assert (Hopen1 : socketOpen (onaudioprocess inputData st) = true)
      by (rewrite (socketOpen_view _ _ Hview1); exact Hopen).
    destruct (IH _ Hopen1 Hres1)
      as (c2 & Hf2 & Ht2 & Hwf2 & Hcat2 & Hres2 & Hview2).
    fold (feed chunks (onaudioprocess inputData st)).
    exists (c1 ++ c2). repeat split.
    + rewrite Hf2, Hf1, app_assoc. reflexivity.
    + rewrite Ht2, Ht1, (sendsOf_view _ _ _ Hview1), sendsOf_app, app_assoc.
      reflexivity.
    + apply Forall_app. split; assumption.
    + rewrite map_app, concat_app, <- app_assoc, Hcat2, app_assoc, Hcat1.
      cbn [List.concat]. rewrite app_assoc. reflexivity.
    + exact Hres2.
    + congruence.
Qed.

Lemma skipn_past {A : Type} (a b : list A) :
  skipn (List.length a) (a ++ b) = b.
Proof. induction a as [ | x a IH ]; [ reflexivity | exact IH ]. Qed.

Lemma framesSent_sendsOn (ws : Socket) (cands : list Candidate) :
  framesSent (sendsOn ws cands) = map pcm (filter transmitted cands).
Proof.
  induction cands as [ | c cands IH ]; [ reflexivity | ].
  unfold sendsOn in *. cbn [flat_map filter].
  destruct (transmitted c); cbn; rewrite IH; reflexivity.
Qed.

Lemma filter_transmitted (cands : list Candidate) :
  Forall (wellFormed true) cands ->
  filter transmitted cands = filter hasAudio cands.
Proof.
  intro H. apply filter_ext_in. intros c Hin.
  rewrite Forall_forall in H. destruct (H c Hin) as (_ & _ & _ & Htx).
  rewrite Htx, andb_true_r. reflexivity.
Qed.

Lemma concat_frames_length (open : bool) (cands : list Candidate) :
  Forall (wellFormed open) cands ->
  List.length (List.concat (map samples cands))
  = List.length cands * FRAME_SIZE.
Proof.
  induction 1 as [ | c cands (Hlen & _) _ IH ]; [ reflexivity | ].
  cbn. rewrite length_app, IH, Hlen. reflexivity.
Qed.

Lemma isLoud_aboveThreshold (s : number) :
  SampleConverter.isLoud s = true <-> aboveThreshold s.
Proof.
  unfold SampleConverter.isLoud, aboveThreshold.
  destruct s as [ q | | | ].
  - rewrite clamp_finite. cbn. apply Qltb_lt.
  - cbn. split; [ discriminate | contradiction ].
  - cbn. split; intros _; reflexivity.
  - cbn. split; intros _; reflexivity.
Qed.

(** The literal [0.01] is not one hundredth, but it separates the samples
    in the same way: a sample below [2^-7] is under both, and between two
    neighbours of the grid above [2^-7] there is room for only one of
    them. *)
Lemma threshold_is_one_hundredth (c t : Q) :
  SampleConverter.SILENCE_THRESHOLD = Fin t ->
  (Qabs c < 1 # 128)%Q \/ onGrid c ->
  ((t < Qabs c)%Q <-> (1 # 100 < Qabs c)%Q).
Proof.
  intros Ht Hc. injection Ht as <-.
  destruct Hc as [ Hsmall | (n & Hn) ].
  - split; intro H; exfalso.
    + apply (Qlt_irrefl (Qabs c)).
      apply Qlt_trans with (1 # 128)%Q; [ exact Hsmall | ].
      apply Qlt_trans with (5764607523034235 # 576460752303423488)%Q;
        [ reflexivity | exact H ].
    + apply (Qlt_irrefl (Qabs c)).
      apply Qlt_trans with (1 # 128)%Q; [ exact Hsmall | ].
      apply Qlt_trans with (1 # 100)%Q; [ reflexivity | exact H ].
  - rewrite Hn. unfold Qlt, Qabs. cbn [Qnum Qden]. lia.
Qed.

End FrameAccumulator.

(** ** The other handlers leave the frame buffer alone *)

Ltac unfold_handlers :=
  repeat progress unfold connectWebSocket, disconnectWebSocket, startAudioCapture,
    startAudioCapture_ready, startAudioCapture_failed, stopAudioCapture,
    handleLanguageChange, languagePairEffect, ws_onopen, ws_onmessage,
    handleAzureWebSocketMessage, ws_onerror, ws_onclose, connectTimeout,
    sendTestFrame, ws_close, ws_send, onConnectionChange, onSessionStart,
    onTranscriptUpdate, set_ready, emit.

Ltac split_cases :=
  repeat match goal with
    | |- context [ match ?x with _ => _ end ] =>
        lazymatch x with
        | context [ match _ with _ => _ end ] => fail
        | _ => destruct x eqn:?
        end
    end.

Lemma step_frameBuffer (st : State) (ev : Event) :
  (exists inputData, ev = AudioProcess inputData /\ processorRef st = true)
  \/ frameBufferRef (step st ev) = frameBufferRef st
  \/ frameBufferRef (step st ev) = [].
Proof.
  destruct ev; cbn [step];
    try (right; left; unfold_handlers; split_cases; reflexivity).
  - right. right; reflexivity.
  - destruct (processorRef st) eqn:Hp.
    + left. eexists. split; reflexivity.
    + right. left. reflexivity.
Qed.

Lemma step_residual (st : State) (ev : Event) :
  List.length (residual st) < FRAME_SIZE ->
  List.length (residual (step st ev)) < FRAME_SIZE.
Proof.
  intro Hinv.
  destruct (step_frameBuffer st ev)
    as [ (inputData & -> & Hp) | [ Hsame | Hnil ] ].
  - cbn [step]. rewrite Hp.
    destruct (socketOpen st) eqn:Hopen.
    + destruct (onaudioprocess_open inputData st Hopen)
        as (_ & _ & _ & _ & _ & Hres & _).
      exact Hres.
    + rewrite (onaudioprocess_closed _ _ Hopen). exact Hinv.
  - unfold residual in *. rewrite Hsame. exact Hinv.
  - unfold residual. rewrite Hnil. apply FRAME_SIZE_pos.
Qed.

Lemma run_residual (evs : list Event) (st : State) :
  List.length (residual st) < FRAME_SIZE ->
  List.length (residual (run st evs)) < FRAME_SIZE.
Proof.
  revert st. induction evs as [ | ev evs IH ]; intros st Hinv.
  - exact Hinv.
  - apply IH, step_residual, Hinv.
Qed.

(** C4.  In every state the client can reach, the accumulator holds fewer
    than [FRAME_SIZE] samples; every event keeps it so, and whenever the
    audio callback has processed a chunk (the current socket being open),
    fewer than [FRAME_SIZE] samples are left, whatever was held before. *)
Theorem residual_below_frame_size :
  (forall evs : list Event,
      List.length (residual (run initialState evs)) < FRAME_SIZE) /\
  (forall (st : State) (ev : Event),
      List.length (residual st) < FRAME_SIZE ->
      List.length (residual (step st ev)) < FRAME_SIZE) /\
  (forall (st : State) (inputData : list number),
      socketOpen st = true ->
      List.length (residual (onaudioprocess inputData st)) < FRAME_SIZE).
Proof.
  split; [ | split ].
  - intro evs. apply run_residual. apply FRAME_SIZE_pos.
  - exact step_residual.
  - intros st inputData Hopen.
    destruct (onaudioprocess_open inputData st Hopen)
      as (_ & _ & _ & _ & _ & Hres & _).
    exact Hres.
Qed.

Lemma residual_below_frame_size_witness :
  socketOpen streaming = true /\
  List.length (residual streaming) < FRAME_SIZE /\
  List.length
    (residual (onaudioprocess (repeat (Fin (1 # 2)) 3000) streaming))
  < FRAME_SIZE /\
  List.length (residual (step streaming ClickStopCapture)) < FRAME_SIZE.
Proof.
  assert (H0 : List.length (residual streaming) < FRAME_SIZE)
    by exact (proj1 residual_below_frame_size
                [ClickConnect true; SocketOpens 0 0 "r"; CaptureReady]).
  split; [ reflexivity | split; [ exact H0 | split ] ].
  - apply (proj2 (proj2 residual_below_frame_size)). reflexivity.
  - apply (proj1 (proj2 residual_below_frame_size)). exact H0.
Defined.

Lemma since_framed (st st' : State) (cands : list Candidate) :
  framed st' = framed st ++ cands -> candidatesSince st st' = cands.
Proof. intro H. unfold candidatesSince. rewrite H. apply skipn_past. Qed.

Lemma since_trace (st st' : State) (es : list Effect) :
  trace st' = trace st ++ es -> effectsSince st st' = es.
Proof. intro H. unfold effectsSince. rewrite H. apply skipn_past. Qed.

Lemma framesSent_sendsOf (st : State) (cands : list Candidate) :
  socketOpen st = true ->
  framesSent (sendsOf st cands) = map pcm (filter transmitted cands).
Proof.
  unfold socketOpen, sendsOf. intro H.
  destruct (websocketRef st); [ apply framesSent_sendsOn | discriminate ].
Qed.

Lemma feed_lossless (chunks : list (list number)) (st : State) :
  socketOpen st = true ->
  frameBufferRef st = [] ->
  let st' := feed chunks st in
  let cands := candidatesSince st st' in
  let N := List.length (List.concat chunks) in
  framed st' = framed st ++ cands /\
  Forall (wellFormed true) cands /\
  List.concat (map samples cands) ++ residual st' = List.concat chunks /\
  List.length (residual st') < FRAME_SIZE /\
  framesSent (effectsSince st st') = map pcm (filter hasAudio cands) /\
  List.length cands = N / FRAME_SIZE /\
  List.length (residual st') = N mod FRAME_SIZE.
Proof.
  intros Hopen Hempty st' cands N.
  assert (Hres0 : residual st = []) by (unfold residual; rewrite Hempty; reflexivity).
  assert (Hlt0 : List.length (residual st) < FRAME_SIZE)
    by (rewrite Hres0; apply FRAME_SIZE_pos).
  destruct (feed_open chunks st Hopen Hlt0)
    as (cs & Hf & Ht & Hwf & Hcat & Hres & Hview).
  fold st' in Hf, Ht, Hcat, Hres, Hview.
  assert (Hc : cands = cs) by (apply since_framed; exact Hf).
  rewrite Hc. rewrite Hres0 in Hcat. cbn [app] in Hcat.
  assert (Hcount : N = List.length cs * FRAME_SIZE + List.length (residual st')).
  { unfold N. rewrite <- Hcat, length_app, (concat_frames_length _ _ Hwf).
    reflexivity. }
  repeat split.
  - exact Hf.
  - exact Hwf.
  - exact Hcat.
  - exact Hres.
  - rewrite (since_trace _ _ _ Ht), (framesSent_sendsOf _ _ Hopen).
    rewrite (filter_transmitted _ Hwf). reflexivity.
  - apply Nat.div_unique with (r := List.length (residual st'));
      [ exact Hres | lia ].
  - apply Nat.mod_unique with (q := List.length cs);
      [ exact Hres | lia ].
Qed.

(** C2.  Chunks fed to an empty accumulator while the socket is open: the
    candidate frames cut, in order, followed by the residual, are the
    samples fed; every candidate has [FRAME_SIZE] samples; the residual is
    shorter than a frame; the frames sent are the conversions of the
    candidates that have audio, in the order they were cut; [N] samples
    give [N / FRAME_SIZE] candidates and a residual of [N mod FRAME_SIZE].
    One chunk of 3000 samples gives one candidate, which is sent when it
    has audio, and a residual of 952 samples. *)
Theorem frame_accumulator_lossless :
  (forall (chunks : list (list number)) (st : State),
      socketOpen st = true ->
      frameBufferRef st = [] ->
      let st' := feed chunks st in
      let cands := candidatesSince st st' in
      let N := List.length (List.concat chunks) in
      framed st' = framed st ++ cands /\
      Forall (wellFormed true) cands /\
      List.concat (map samples cands) ++ residual st' = List.concat chunks /\
      List.length (residual st') < FRAME_SIZE /\
      framesSent (effectsSince st st') = map pcm (filter hasAudio cands) /\
      List.length cands = N / FRAME_SIZE /\
      List.length (residual st') = N mod FRAME_SIZE) /\
  FRAME_SIZE = 2048 /\
  (forall (chunk : list number) (st : State),
      socketOpen st = true ->
      frameBufferRef st = [] ->
      List.length chunk = 3000 ->
      let st' := feed [chunk] st in
      candidatesSince st st'
      = [ {| samples := firstn 2048 chunk;
             pcm := map SampleConverter.convertSample (firstn 2048 chunk);
             hasAudio := existsb SampleConverter.isLoud (firstn 2048 chunk);
             transmitted := existsb SampleConverter.isLoud (firstn 2048 chunk) |} ] /\
      residual st' = skipn 2048 chunk /\
      List.length (residual st') = 952 /\
      framesSent (effectsSince st st')
      = if existsb SampleConverter.isLoud (firstn 2048 chunk)
        then [map SampleConverter.convertSample (firstn 2048 chunk)]
        else []).
Proof.
  split; [ exact feed_lossless | split; [ exact FRAME_SIZE_eq | ] ].
  intros chunk st Hopen Hempty Hlen st'.
  destruct (feed_lossless [chunk] st Hopen Hempty)
    as (Hf & Hwf & Hcat & Hres & Hsent & Hn & Hr).
  fold st' in Hf, Hwf, Hcat, Hres, Hsent, Hn, Hr.
  cbn [List.concat] in Hcat, Hn, Hr. rewrite app_nil_r in Hcat, Hn, Hr.
  rewrite Hlen, FRAME_SIZE_eq in Hn, Hr.
  change (3000 / 2048) with 1 in Hn. change (3000 mod 2048) with 952 in Hr.
  destruct (candidatesSince st st') as [ | c [ | c' cs ] ] eqn:Hcs;
    try discriminate Hn.
  destruct (Forall_inv Hwf) as (Hclen & Hpcm & Hloud & Htx).
  cbn [map List.concat] in Hcat. rewrite app_nil_r in Hcat.
  rewrite FRAME_SIZE_eq in Hclen.
  assert (Hsam : samples c = firstn 2048 chunk).
  { rewrite <- Hcat, firstn_app, <- Hclen, firstn_all, Nat.sub_diag.
    cbn. rewrite app_nil_r. reflexivity. }
  assert (Hrest : residual st' = skipn 2048 chunk).
  { rewrite <- Hcat. rewrite skipn_app, <- Hclen, skipn_all, Nat.sub_diag.
    reflexivity. }
  rewrite andb_true_r in Htx.
  repeat split.
  - f_equal. destruct c as [ cs cp ch ct ]. cbn in *. congruence.
  - exact Hrest.
  - exact Hr.
  - rewrite Hsent. cbn [filter]. rewrite Hloud, Hsam.
    destruct (existsb SampleConverter.isLoud (firstn 2048 chunk));
      cbn; rewrite ?Hpcm, ?Hsam; reflexivity.
Qed.

Lemma frame_accumulator_lossless_witness :
  let chunk := repeat (Fin (1 # 2)) 3000 in
  socketOpen streaming = true /\
  frameBufferRef streaming = [] /\
  List.length chunk = 3000 /\
  List.length (residual (feed [chunk] streaming)) = 952 /\
  List.length (residual (feed [chunk; chunk] streaming)) < FRAME_SIZE.
Proof.
  intro chunk.
  pose proof (proj2 (proj2 frame_accumulator_lossless) chunk streaming
                eq_refl eq_refl eq_refl) as (_ & _ & H & _).
  pose proof (proj1 frame_accumulator_lossless [chunk; chunk] streaming
                eq_refl eq_refl) as (_ & _ & _ & H' & _).
  split; [ reflexivity | split; [ reflexivity | split; [ reflexivity | ] ] ].
  split; [ exact H | exact H' ].
Defined.

Lemma loud_candidates_sent (cs : list Candidate) :
  Forall (wellFormed true) cs ->
  map pcm (filter transmitted cs)
  = map (map SampleConverter.convertSample)
      (filter (existsb SampleConverter.isLoud) (map samples cs)).
Proof.
  induction 1 as [ | c cs (_ & Hpcm & Hloud & Htx) _ IH ]; [ reflexivity | ].
  cbn [filter map]. rewrite Htx, andb_true_r, Hloud.
  destruct (existsb SampleConverter.isLoud (samples c)); cbn [map];
    rewrite IH; [ rewrite Hpcm | ]; reflexivity.
Qed.

(** C3.  The audio callback, in any state and on any chunk.  While the
    current socket is open, the candidate frames it cuts are the
    consecutive blocks of [FRAME_SIZE] samples of the residual followed by
    the chunk, up to a residual shorter than a frame; what it sends is
    exactly the conversions of the candidates that have a sample which,
    clamped, is above the threshold in absolute value, in order, on the
    current socket, and nothing else; a candidate is marked as transmitted
    if and only if it has such a sample.  While no socket is open, it
    cuts no candidate and changes nothing. *)
Theorem frame_transmitted_iff_loud (st : State) (inputData : list number) :
  let st' := onaudioprocess inputData st in
  let cands := candidatesSince st st' in
  framed st' = framed st ++ cands /\
  trace st' = trace st ++ effectsSince st st' /\
  effectsSince st st' = sendsOf st cands /\
  framesSent (effectsSince st st') = map pcm (filter transmitted cands) /\
  framesSent (effectsSince st st')
  = map (map SampleConverter.convertSample)
      (filter (existsb SampleConverter.isLoud) (map samples cands)) /\
  List.length (effectsSince st st') = List.length (filter transmitted cands) /\
  Forall
    (fun c =>
       List.length (samples c) = FRAME_SIZE /\
       pcm c = map SampleConverter.convertSample (samples c) /\
       (transmitted c = true <->
        exists s, In s (samples c) /\ aboveThreshold s) /\
       (existsb SampleConverter.isLoud (samples c) = true <->
        exists s, In s (samples c) /\ aboveThreshold s))
    cands /\
  (if socketOpen st
   then List.concat (map samples cands) ++ residual st'
        = residual st ++ inputData /\
        List.length (residual st') < FRAME_SIZE
   else st' = st).
Proof.
  intros st' cands.
  destruct (socketOpen st) eqn:Hopen.
  - destruct (onaudioprocess_open inputData st Hopen)
      as (cs & Hf & Ht & Hwf & Hcat & Hres & _).
    fold st' in Hf, Ht, Hcat, Hres.
    assert (Hc : cands = cs) by (apply since_framed; exact Hf).
    assert (Hsent : framesSent (sendsOf st cs) = map pcm (filter transmitted cs))
      by (apply framesSent_sendsOf; exact Hopen).
    rewrite Hc, (since_trace _ _ _ Ht).
    split; [ exact Hf | split; [ exact Ht | split; [ reflexivity | ] ] ].
    split; [ exact Hsent | ].
    split; [ rewrite Hsent; apply loud_candidates_sent, Hwf | ].
    split; [ | split; [ | split; [ exact Hcat | exact Hres ] ] ].
    + unfold socketOpen, sendsOf in *.
      destruct (websocketRef st) as [ ws | ]; [ | discriminate ].
      clear. induction cs as [ | c cs IH ]; [ reflexivity | ].
      unfold sendsOn in *. cbn [flat_map filter].
      destruct (transmitted c); cbn; rewrite IH; reflexivity.
    + eapply Forall_impl; [ | exact Hwf ].
      intros c (Hlen & Hpcm & Hloud & Htx).
      split; [ exact Hlen | split; [ exact Hpcm | ] ].
      rewrite Htx, andb_true_r, Hloud, existsb_exists.
      split; split; intros (s & Hin & Hs); exists s; split; try exact Hin;
        apply isLoud_aboveThreshold; exact Hs.
  - unfold cands, candidatesSince, effectsSince, st'.
    rewrite (onaudioprocess_closed _ _ Hopen), !skipn_all.
    unfold sendsOf. cbn. rewrite !app_nil_r.
    destruct (websocketRef st); repeat split; constructor.
Qed.

(** The test frame is not a candidate of the accumulator: the button sends
    [FRAME_SIZE] zeros on the open current socket without the silence test,
    and leaves the frame buffer and the candidates alone. *)
Lemma test_frame_effects (st : State) (ws : Socket) :
  websocketRef st = Some ws ->
  readyState st ws = OPEN ->
  let st' := step st ClickSendTestFrame in
  trace st' = trace st ++ [SendBinary ws testFrame] /\
  List.length testFrame = FRAME_SIZE /\
  Forall (fun z => z = 0%Z) testFrame /\
  frameBufferRef st' = frameBufferRef st /\
  framed st' = framed st.
Proof.
  intros Hcur Hready. cbn [step]. unfold sendTestFrame, ws_send.
  rewrite Hcur, Hready. cbn [is_open].
  split; [ reflexivity | split; [ apply repeat_length | ] ].
  split; [ | split; reflexivity ].
  apply Forall_forall. intros z Hz. exact (repeat_spec _ _ _ Hz).
Qed.

(** ** Session Controller *)

Lemma update_same {A : Type} (f : Socket -> A) (ws : Socket) (a : A) :
  update f ws a ws = a.
Proof. unfold update. rewrite Nat.eqb_refl. reflexivity. Qed.

(** What the open event of a connecting socket does. *)
Lemma socket_open_effects (st : State) (ws : Socket) (now : Z) (rnd : string) :
  ws < socketCount st ->
  readyState st ws = CONNECTING ->
  let st' := step st (SocketOpens ws now rnd) in
  let sid := generateSessionId now rnd in
  trace st'
  = trace st
    ++ [ConnectionChange connected;
        SessionStart sid;
        SendText ws
          (session_init sid 16000 1 "azure_speech" (closureLanguagePair st ws)
             "indian");
        Resolved ws] /\
  connectionState st' = connected /\
  isWebSocketConnected st' = true /\
  websocketRef st' = Some ws /\
  readyState st' ws = OPEN /\
  sessionId st' = sid /\
  sessionIdRef st' = sid /\
  transcripts st' = [].
Proof.
  intros Hws Hready. cbn [step].
  apply Nat.ltb_lt in Hws. rewrite Hws, Hready.
  unfold ws_onopen, ws_send, onSessionStart, onConnectionChange, set_ready,
    emit.
  cbn. rewrite update_same. cbn. rewrite update_same.
  rewrite <- !app_assoc. cbn. repeat split; reflexivity.
Qed.

Lemma connect_effects (st : State) :
  let ws := socketCount st in
  let st' := step st (ClickConnect true) in
  trace st' = trace st ++ [ConnectionChange connecting; SocketCreated ws] /\
  connectionState st' = connecting /\
  socketCount st' = S ws /\
  readyState st' ws = CONNECTING /\
  closureLanguagePair st' ws = languagePair st /\
  websocketRef st' = websocketRef st /\
  transcripts st' = transcripts st /\
  sessionId st' = sessionId st.
Proof.
  cbn [step]. unfold connectWebSocket, onConnectionChange, emit. cbn.
  rewrite !update_same, <- !app_assoc. cbn. repeat split; reflexivity.
Qed.

Lemma sendsOf_binary (st : State) (cands : list Candidate) (e : Effect) :
  In e (sendsOf st cands) -> exists ws payload, e = SendBinary ws payload.
Proof.
  unfold sendsOf, sendsOn. destruct (websocketRef st) as [ ws | ]; [ | intros [] ].
  intro H. apply in_flat_map in H. destruct H as (c & _ & H).
  destruct (transmitted c); [ | destruct H ].
  destruct H as [ <- | [] ]. do 2 eexists. reflexivity.
Qed.

(** What an event adds to the trace; [connected] is only reported when a
    socket opens. *)
Lemma step_reports_connected (st : State) (ev : Event) :
  exists es,
    trace (step st ev) = trace st ++ es /\
    (In (ConnectionChange connected) es ->
     exists ws now rnd, ev = SocketOpens ws now rnd).
Proof.
  destruct ev; cbn [step].
  13:{ destruct (processorRef st);
         [ | exists []; rewrite app_nil_r; split; [ reflexivity | intros [] ] ].
       destruct (socketOpen st) eqn:Hopen.
       - destruct (onaudioprocess_open inputData st Hopen)
           as (cands & _ & Ht & _).
         exists (sendsOf st cands). split; [ exact Ht | ].
         intro H. apply sendsOf_binary in H. destruct H as (? & ? & H).
         discriminate H.
       - rewrite (onaudioprocess_closed _ _ Hopen).
         exists []. rewrite app_nil_r. split; [ reflexivity | intros [] ]. }
  all: unfold_handlers; split_cases; cbn; rewrite <- ?app_assoc;
    eexists; (split; [ try reflexivity; symmetry; apply app_nil_r | ]).
  all: cbn; intro H; repeat (destruct H as [ H | H ]; try discriminate H).
  all: try contradiction.
  all: do 3 eexists; reflexivity.
Qed.

(** C5 (as amended).  A connection attempt creates a socket that keeps the
    language pair of that moment.  When the socket opens, the client reports
    [connected] at once, then starts the session with a freshly generated
    identifier, then sends [session_init] with that identifier, the sample
    rate 16000, one channel and the language pair of the attempt, which the
    open socket accepts, and then resolves the attempt.  No other event
    reports [connected]. *)
Theorem connected_reported_when_socket_opens :
  (forall st : State,
      let ws := socketCount st in
      let st' := step st (ClickConnect true) in
      trace st' = trace st ++ [ConnectionChange connecting; SocketCreated ws] /\
      readyState st' ws = CONNECTING /\
      closureLanguagePair st' ws = languagePair st) /\
  (forall (st : State) (ws : Socket) (now : Z) (rnd : string),
      ws < socketCount st ->
      readyState st ws = CONNECTING ->
      let st' := step st (SocketOpens ws now rnd) in
      let sid := generateSessionId now rnd in
      trace st'
      = trace st
        ++ [ConnectionChange connected;
            SessionStart sid;
            SendText ws
              (session_init sid 16000 1 "azure_speech"
                 (closureLanguagePair st ws) "indian");
            Resolved ws] /\
      connectionState st' = connected /\
      websocketRef st' = Some ws /\
      sessionId st' = sid /\
      sessionIdRef st' = sid) /\
  (forall (st : State) (ev : Event),
      In (ConnectionChange connected) (effectsSince st (step st ev)) ->
      exists ws now rnd, ev = SocketOpens ws now rnd).
Proof.
  split; [ | split ].
  - intro st. destruct (connect_effects st) as (Ht & _ & _ & Hr & Hl & _).
    repeat split; assumption.
  - intros st ws now rnd Hws Hready.
    destruct (socket_open_effects st ws now rnd Hws Hready)
      as (Ht & Hc & _ & Hw & _ & Hs & Hsr & _).
    repeat split; assumption.
  - intros st ev.
    destruct (step_reports_connected st ev) as (es & Ht & Hes).
    rewrite (since_trace _ _ _ Ht). exact Hes.
Qed.

Lemma connected_reported_when_socket_opens_witness :
  let st := step initialState (ClickConnect true) in
  let ev := SocketOpens 0 1700000000000%Z "k3j9x0q2a" in
  0 < socketCount st /\
  readyState st 0 = CONNECTING /\
  connectionState (step st ev) = connected /\
  In (ConnectionChange connected) (effectsSince st (step st ev)) /\
  (exists ws now rnd, ev = SocketOpens ws now rnd).
Proof.
  intros st ev.
  pose proof (proj1 (proj2 connected_reported_when_socket_opens) st 0
                1700000000000%Z "k3j9x0q2a"%string
                (Nat.lt_0_succ 0) eq_refl) as (_ & H & _).
  assert (Hin : In (ConnectionChange connected)
                  (effectsSince st (step st ev)))
    by (vm_compute; left; reflexivity).
  split; [ apply Nat.lt_0_succ | split; [ reflexivity | ] ].
  split; [ exact H | split; [ exact Hin | ] ].
  exact (proj2 (proj2 connected_reported_when_socket_opens) st ev Hin).
Defined.

(** The language pair of [session_init] is the one of the moment the
    attempt started: a change made while the socket was connecting is not
    in it, and is not sent afterwards either. *)
Example init_carries_language_of_the_attempt :
  let hindi := {| source := "auto"%string; target := "hi"%string |} in
  let st :=
    run initialState
      [ClickConnect true;
       ChangeLanguage hindi;
       SocketOpens 0 1700000000000%Z "k3j9x0q2a"] in
  languagePair st = hindi /\
  filter isInit (trace st)
  = [SendText 0
       (session_init "session_1700000000000_k3j9x0q2a" 16000 1
          "azure_speech" {| source := "auto"; target := "en" |} "indian")] /\
  List.length (trace st) = 6.
Proof. repeat split; vm_compute; reflexivity. Qed.

(** C5 (as stated) fails: in the first connection of a client, [connected]
    is reported before any [session_init] has gone out. *)
Lemma connected_reported_before_init :
  trace
    (run initialState
       [ClickConnect true; SocketOpens 0 1700000000000%Z "k3j9x0q2a"])
  = [ConnectionChange connecting;
     SocketCreated 0;
     ConnectionChange connected;
     SessionStart "session_1700000000000_k3j9x0q2a";
     SendText 0
       (session_init "session_1700000000000_k3j9x0q2a" 16000 1
          "azure_speech" {| source := "auto"; target := "en" |} "indian");
     Resolved 0] /\
  initPrecedesConnected false
    (trace
       (run initialState
          [ClickConnect true; SocketOpens 0 1700000000000%Z "k3j9x0q2a"]))
  = false.
Proof. split; vm_compute; reflexivity. Qed.

Lemma stopAudioCapture_effects (st : State) :
  let st' := stopAudioCapture st in
  trace st' = trace st ++ releases st ++ [FrameBufferCleared] /\
  mediaStreamRef st' = false /\
  processorRef st' = false /\
  audioContextRef st' = None /\
  frameBufferRef st' = [] /\
  isCapturing st' = false /\
  connectionState st' = connectionState st /\
  isWebSocketConnected st' = isWebSocketConnected st /\
  websocketRef st' = websocketRef st /\
  readyState st' = readyState st /\
  sessionIdRef st' = sessionIdRef st.
Proof.
  unfold stopAudioCapture, releases, emit.
  destruct (mediaStreamRef st) eqn:Hm; cbn;
    destruct (processorRef st) eqn:Hp; cbn;
    destruct (audioContextRef st) as [ [ | | ] | ] eqn:Ha; cbn;
    rewrite ?Hm, ?Hp, ?Ha; cbn; rewrite <- ?app_assoc; cbn;
    repeat split; reflexivity.
Qed.

Lemma disconnectWebSocket_effects (st : State) :
  let st' := disconnectWebSocket st in
  trace st'
  = trace st ++ closesCurrent st ++ [ConnectionChange disconnected] /\
  connectionState st' = disconnected /\
  isWebSocketConnected st' = false /\
  websocketRef st' = None /\
  sessionIdRef st' = EmptyString /\
  frameBufferRef st' = frameBufferRef st /\
  (forall ws,
      websocketRef st = Some ws ->
      readyState st ws = OPEN ->
      readyState st' ws = CLOSING).
Proof.
  unfold disconnectWebSocket, closesCurrent, ws_close, onConnectionChange,
    emit.
  destruct (websocketRef st) as [ ws | ] eqn:Hw; cbn.
  - destruct (readyState st ws) eqn:Hr; cbn; rewrite <- ?app_assoc; cbn;
      repeat split; try reflexivity.
    all: intros ws' Hws' Hopen; injection Hws' as Heq; subst ws'.
    all: try congruence; apply update_same.
  - repeat split; try reflexivity; try assumption.
    intros ws' Hws'. discriminate.
Qed.

(** C6 (as amended).  Stopping capture stops the tracks, detaches the audio
    callback, closes the audio context and only then releases the frame
    buffer; the residual is discarded, nothing is sent, and capture is off.
    It closes no socket and leaves the connection state as it is.  Closing
    the current socket with the code 1000 and, after that, reporting
    [disconnected] is what disconnecting does. *)
Theorem stop_capture_keeps_connection (st : State) :
  (let st' := stopAudioCapture st in
   trace st' = trace st ++ releases st ++ [FrameBufferCleared] /\
   (processorRef st = true ->
    exists before between,
      effectsSince st st'
      = before ++ ProcessorDisconnected :: between ++ [FrameBufferCleared]) /\
   processorRef st' = false /\
   residual st' = [] /\
   framesSent (effectsSince st st') = [] /\
   isCapturing st' = false /\
   connectionState st' = connectionState st /\
   websocketRef st' = websocketRef st /\
   readyState st' = readyState st) /\
  (let st' := disconnectWebSocket st in
   trace st'
   = trace st ++ closesCurrent st ++ [ConnectionChange disconnected] /\
   connectionState st' = disconnected /\
   websocketRef st' = None /\
   (forall ws,
       websocketRef st = Some ws ->
       readyState st ws = OPEN ->
       readyState st' ws = CLOSING)).
Proof.
  split.
  - destruct (stopAudioCapture_effects st)
      as (Ht & _ & Hp & _ & Hb & Hc & Hs & _ & Hw & Hr & _).
    cbn zeta. rewrite (since_trace _ _ _ Ht).
    repeat split; try assumption.
    + intro Hproc. unfold releases. rewrite Hproc.
      exists (if mediaStreamRef st then [TracksStopped] else []).
      eexists. rewrite <- app_assoc. reflexivity.
    + unfold releases.
      destruct (mediaStreamRef st), (processorRef st),
        (audioContextRef st) as [ [ | | ] | ]; reflexivity.
  - destruct (disconnectWebSocket_effects st)
      as (Ht & Hc & _ & Hw & _ & _ & Hr).
    repeat split; assumption.
Qed.

Lemma stop_capture_keeps_connection_witness :
  processorRef streaming = true /\
  websocketRef streaming = Some 0 /\
  readyState streaming 0 = OPEN /\
  (exists before between,
      effectsSince streaming (stopAudioCapture streaming)
      = before ++ ProcessorDisconnected :: between ++ [FrameBufferCleared]) /\
  readyState (disconnectWebSocket streaming) 0 = CLOSING.
Proof.
  pose proof (stop_capture_keeps_connection streaming)
    as ((_ & Hstop & _) & (_ & _ & _ & Hclose)).
  split; [ reflexivity | split; [ reflexivity | split; [ reflexivity | ] ] ].
  split; [ exact (Hstop eq_refl) | exact (Hclose 0 eq_refl eq_refl) ].
Defined.

(** C6 (as stated) fails: stopping capture in a connected session leaves
    the socket open and the state [connected]. *)
Lemma stop_capture_does_not_disconnect :
  ~ stopsAsSpecified streaming (stopAudioCapture streaming).
Proof.
  intros (_ & _ & _ & H). vm_compute in H. discriminate H.
Qed.

Lemma connectTimeout_effects (st : State) (ws : Socket) :
  ws < socketCount st ->
  readyState st ws = CONNECTING ->
  let st' := step st (TimeoutFires ws) in
  trace st'
  = trace st
    ++ [SocketClose ws None None; Rejected "WebSocket connection timeout"] /\
  readyState st' ws = CLOSING /\
  connectionState st' = connectionState st.
Proof.
  intros Hws Hready. cbn [step]. apply Nat.ltb_lt in Hws. rewrite Hws.
  unfold connectTimeout, ws_close, emit. rewrite Hready. cbn.
  rewrite Hready. cbn. rewrite update_same, <- app_assoc.
  repeat split; reflexivity.
Qed.

Lemma timeout_after_open (st : State) (ws : Socket) :
  readyState st ws = OPEN -> step st (TimeoutFires ws) = st.
Proof.
  intro Hready. cbn [step]. unfold connectTimeout. rewrite Hready.
  destruct (ws <? socketCount st); reflexivity.
Qed.

Lemma socket_error_effects (st : State) (ws : Socket) :
  ws < socketCount st ->
  let st' := step st (SocketFails ws) in
  connectionState st' = error /\
  isWebSocketConnected st' = false /\
  readyState st' ws = CLOSED /\
  websocketRef st' = websocketRef st /\
  socketCount st' = socketCount st.
Proof.
  intro Hws. cbn [step]. apply Nat.ltb_lt in Hws. rewrite Hws.
  unfold ws_onerror, onConnectionChange, set_ready, emit. cbn.
  rewrite update_same. repeat split; reflexivity.
Qed.

Lemma stale_close_effects (st : State) (ws : Socket) :
  websocketRef st <> Some ws ->
  let st' := step st (SocketCloses ws) in
  connectionState st' = connectionState st /\
  isWebSocketConnected st' = isWebSocketConnected st /\
  trace st' = trace st.
Proof.
  intro Hcur. cbn [step].
  destruct (ws <? socketCount st); [ | repeat split; reflexivity ].
  assert (Hstale : is_current ws (set_ready ws CLOSED st) = false).
  { unfold is_current. cbn.
    destruct (websocketRef st) as [ w | ]; [ | reflexivity ].
    apply Nat.eqb_neq. intros ->. apply Hcur. reflexivity. }
  unfold ws_onclose. rewrite Hstale. repeat split; reflexivity.
Qed.

Lemma update_other {A : Type} (f : Socket -> A) (ws w : Socket) (a : A) :
  w <> ws -> update f ws a w = f w.
Proof.
  intro H. unfold update. apply Nat.eqb_neq in H. rewrite H. reflexivity.
Qed.

Lemma update_not_connecting (f : Socket -> ReadyState) (ws w : Socket)
  (r : ReadyState) :
  r <> CONNECTING -> f w <> CONNECTING -> update f ws r w <> CONNECTING.
Proof.
  intros Hr Hf. unfold update. destruct (w =? ws); assumption.
Qed.

(** The current socket has opened: it is set by [onopen] only, and no
    socket goes back to connecting. *)
Lemma step_currentOpened (st : State) (ev : Event) :
  currentOpened st -> currentOpened (step st ev).
Proof.
  unfold currentOpened. intro Hinv.
  destruct ev; cbn [step].
  13:{ destruct (processorRef st); [ | exact Hinv ].
       destruct (socketOpen st) eqn:Hopen.
       - destruct (onaudioprocess_open inputData st Hopen)
           as (_ & _ & _ & _ & _ & _ & Hview).
         unfold sessionView in Hview. intros ws Hws.
         replace (socketCount (onaudioprocess inputData st))
           with (socketCount st) by congruence.
         replace (readyState (onaudioprocess inputData st))
           with (readyState st) by congruence.
         apply (Hinv ws). congruence.
       - rewrite (onaudioprocess_closed _ _ Hopen). exact Hinv. }
  8:{ destruct (ws <? socketCount st) eqn:Hlt; [ | exact Hinv ].
      destruct (readyState st ws) eqn:Hready; try exact Hinv.
      apply Nat.ltb_lt in Hlt.
      destruct (socket_open_effects st ws now rnd Hlt Hready)
        as (_ & _ & _ & Hcur & Hopen & _).
      cbn [step] in Hcur, Hopen.
      apply Nat.ltb_lt in Hlt. rewrite Hlt, Hready in Hcur, Hopen.
      intros w Hw. rewrite Hcur in Hw. injection Hw as <-.
      rewrite Hopen. split; [ | discriminate ].
      apply Nat.ltb_lt in Hlt.
      unfold_handlers. cbn. rewrite update_same. cbn. exact Hlt. }
  1:{ destruct created; unfold_handlers; cbn; intros w Hw;
        destruct (Hinv w Hw) as (Hlt & Hnc).
      - split; [ lia | ]. rewrite update_other by lia. exact Hnc.
      - split; [ exact Hlt | exact Hnc ]. }
  2:{ destruct created; unfold startAudioCapture;
        destruct (isCapturing st); try exact Hinv;
        destruct (mediaStreamRef st);
        destruct (audioContextRef st) as [ [ | | ] | ] eqn:Hctx;
        unfold_handlers; cbn; rewrite ?Hctx; cbn; intros w Hw;
        destruct (Hinv w Hw) as (Hlt & Hnc);
        (split; [ lia | ]); rewrite ?update_other by lia; exact Hnc. }
  all: unfold_handlers; split_cases; cbn; intros w Hw;
    try discriminate Hw; try (exact (Hinv w Hw)).
  all: try (destruct (Hinv w Hw) as (Hlt & Hnc);
            split; [ exact Hlt | ];
            apply update_not_connecting; [ discriminate | exact Hnc ]).
  all: try (exfalso; congruence).
  all: eapply Hinv; congruence.
Qed.

Lemma run_currentOpened (evs : list Event) (st : State) :
  currentOpened st -> currentOpened (run st evs).
Proof.
  revert st. induction evs as [ | ev evs IH ]; intros st H; [ exact H | ].
  apply IH, step_currentOpened, H.
Qed.

(** C7.  A connection attempt whose socket is still connecting when the
    10 second timer fires, in any state the client can reach: the
    callback closes the pending socket and rejects the attempt, without
    reporting a state itself; closing a connecting socket fails its
    connection, so the platform fires [error], whose handler reports
    [error] (in whatever state it finds the client), and then [close],
    whose handler does nothing because the socket never became the
    current one.  The connection state at the end is [error]. *)
Theorem connect_timeout_reports_error (evs : list Event) (ws : Socket) :
  let st := run initialState evs in
  ws < socketCount st ->
  readyState st ws = CONNECTING ->
  let st1 := step st (TimeoutFires ws) in
  let st2 := step st1 (SocketFails ws) in
  let st3 := step st2 (SocketCloses ws) in
  (effectsSince st st1
   = [SocketClose ws None None; Rejected "WebSocket connection timeout"] /\
   readyState st1 ws = CLOSING /\
   connectionState st1 = connectionState st) /\
  (connectionState st2 = error /\
   isWebSocketConnected st2 = false /\
   readyState st2 ws = CLOSED) /\
  (connectionState st3 = error /\
   isWebSocketConnected st3 = false /\
   trace st3 = trace st2) /\
  connectionState (run st (timeoutAbort ws)) = error /\
  (forall st', ws < socketCount st' ->
               connectionState (step st' (SocketFails ws)) = error).
Proof.
  intros st Hws Hready st1 st2 st3.
  assert (Hinv : currentOpened st).
  { apply run_currentOpened. intros w Hw. discriminate Hw. }
  assert (Hcur : websocketRef st <> Some ws).
  { intro H. destruct (Hinv ws H) as (_ & Hnc). exact (Hnc Hready). }
  destruct (connectTimeout_effects st ws Hws Hready) as (Ht1 & Hr1 & Hc1).
  fold st1 in Ht1, Hr1, Hc1.
  assert (Hsame1 : websocketRef st1 = websocketRef st
                   /\ socketCount st1 = socketCount st).
  { unfold st1. cbn [step]. unfold connectTimeout, ws_close, emit.
    destruct (ws <? socketCount st); [ | split; reflexivity ].
    rewrite Hready. cbn. rewrite Hready. split; reflexivity. }
  destruct Hsame1 as (Hw1 & Hn1).
  assert (Hws1 : ws < socketCount st1) by (rewrite Hn1; exact Hws).
  destruct (socket_error_effects st1 ws Hws1) as (Hc2 & Hi2 & Hr2 & Hw2 & _).
  fold st2 in Hc2, Hi2, Hr2, Hw2.
  assert (Hcur2 : websocketRef st2 <> Some ws)
    by (rewrite Hw2, Hw1; exact Hcur).
  destruct (stale_close_effects st2 ws Hcur2) as (Hc3 & Hi3 & Ht3).
  fold st3 in Hc3, Hi3, Ht3.
  split; [ | split; [ | split; [ | split ] ] ].
  - split; [ apply since_trace, Ht1 | split; [ exact Hr1 | exact Hc1 ] ].
  - split; [ exact Hc2 | split; [ exact Hi2 | exact Hr2 ] ].
  - split; [ rewrite Hc3; exact Hc2 | split; [ | exact Ht3 ] ].
    rewrite Hi3. exact Hi2.
  - change (run st (timeoutAbort ws)) with st3. rewrite Hc3. exact Hc2.
  - intros st' Hws'. exact (proj1 (socket_error_effects st' ws Hws')).
Qed.

Lemma connect_timeout_reports_error_witness :
  let st := run initialState [ClickConnect true] in
  0 < socketCount st /\
  readyState st 0 = CONNECTING /\
  connectionState st = connecting /\
  connectionState (step st (TimeoutFires 0)) = connecting /\
  connectionState (run st (timeoutAbort 0)) = error.
Proof.
  intro st.
  assert (Hws : 0 < socketCount st) by (vm_compute; lia).
  assert (Hready : readyState st 0 = CONNECTING) by (vm_compute; reflexivity).
  destruct (connect_timeout_reports_error [ClickConnect true] 0 Hws Hready)
    as ((_ & _ & Hc1) & _ & _ & Hend & _).
  split; [ exact Hws | split; [ exact Hready | ] ].
  split; [ vm_compute; reflexivity | ].
  split; [ | exact Hend ].
  transitivity (connectionState st); [ exact Hc1 | vm_compute; reflexivity ].
Defined.

(** ** Session identifiers *)

Lemma underscoreFree_uint (u : Decimal.uint) :
  underscoreFree (NilEmpty.string_of_uint u) = true.
Proof. induction u; cbn; assumption || reflexivity. Qed.

Lemma underscoreFree_int (d : Decimal.int) :
  underscoreFree (NilEmpty.string_of_int d) = true.
Proof. destruct d; cbn; apply underscoreFree_uint. Qed.

Lemma string_of_Z_inj (z z' : Z) :
  Js.string_of_Z z = Js.string_of_Z z' -> z = z'.
Proof.
  unfold Js.string_of_Z. intro H.
  apply DecimalZ.to_int_inj.
  assert (Hs : Some (Z.to_int z) = Some (Z.to_int z'))
    by (rewrite <- !NilEmpty.isi, H; reflexivity).
  injection Hs as Hs. exact Hs.
Qed.

Lemma append_cancel_l (p x y : string) :
  (p ++ x)%string = (p ++ y)%string -> x = y.
Proof.
  induction p as [ | c p IH ]; cbn; intro H; [ exact H | ].
  injection H as H. exact (IH H).
Qed.

(** Two strings without [_], each followed by [_] and a suffix: when the
    wholes are equal, so are the parts. *)
Lemma split_at_underscore (a b r r' : string) :
  underscoreFree a = true ->
  underscoreFree b = true ->
  (a ++ "_" ++ r)%string = (b ++ "_" ++ r')%string ->
  a = b /\ r = r'.
Proof.
  revert b. induction a as [ | c a IH ]; intros [ | d b ] Ha Hb H; cbn in *.
  - injection H as H. split; [ reflexivity | exact H ].
  - injection H as Hc _. subst d. discriminate Hb.
  - injection H as Hc _. subst c. discriminate Ha.
  - injection H as Hc H. subst d.
    apply andb_prop in Ha, Hb. destruct Ha as [ _ Ha ], Hb as [ _ Hb ].
    destruct (IH b Ha Hb H) as [ -> -> ]. split; reflexivity.
Qed.

Lemma stamped_inj (tag : string) (now now' : Z) (rnd rnd' : string) :
  stamped tag now rnd = stamped tag now' rnd' -> now = now' /\ rnd = rnd'.
Proof.
  unfold stamped. intro H.
  apply append_cancel_l in H. cbn [String.append] in H.
  injection H as H.
  destruct (split_at_underscore _ _ _ _
              (underscoreFree_int _) (underscoreFree_int _) H) as [ Hz Hr ].
  split; [ apply string_of_Z_inj; exact Hz | exact Hr ].
Qed.

(** ** Remote close and reconnect *)

Lemma remote_close_effects (st : State) (ws : Socket) :
  ws < socketCount st ->
  websocketRef st = Some ws ->
  let st' := step st (SocketCloses ws) in
  trace st' = trace st ++ [ConnectionChange disconnected] /\
  connectionState st' = disconnected /\
  isWebSocketConnected st' = false /\
  isCapturing st' = false /\
  socketOpen st' = false /\
  transcripts st' = transcripts st /\
  sessionId st' = sessionId st.
Proof.
  intros Hws Hcur. cbn [step]. apply Nat.ltb_lt in Hws. rewrite Hws.
  unfold ws_onclose, is_current, set_ready, onConnectionChange, emit,
    socketOpen.
  cbn. rewrite Hcur, Nat.eqb_refl. cbn. rewrite Hcur, update_same.
  repeat split; reflexivity.
Qed.

Lemma reconnect_effects (st : State) (now : Z) (rnd : string) :
  let st1 := step st (ClickConnect true) in
  let st2 := step st1 (SocketOpens (socketCount st) now rnd) in
  connectionState st2 = connected /\
  websocketRef st2 = Some (socketCount st) /\
  sessionId st2 = generateSessionId now rnd /\
  transcripts st2 = [].
Proof.
  intros st1 st2.
  destruct (connect_effects st) as (_ & _ & Hn & Hr & _).
  fold st1 in Hn, Hr.
  assert (Hlt : socketCount st < socketCount st1) by (rewrite Hn; lia).
  destruct (socket_open_effects st1 (socketCount st) now rnd Hlt Hr)
    as (_ & Hc & _ & Hw & _ & Hs & _ & Ht).
  repeat split; assumption.
Qed.

(** C8 (as amended).  When the current socket is closed, the state becomes
    [disconnected], capture is marked off and the audio callback no longer
    does anything, while the transcript log and the session identifier stay
    as they were.  A reconnect starts a session under an identifier built
    from the clock reading and the random suffix of that moment, which
    differs from any other one unless both coincide, and it empties the
    transcript log. *)
Theorem remote_close_then_reconnect :
  (forall (st : State) (ws : Socket),
      ws < socketCount st ->
      websocketRef st = Some ws ->
      let st' := step st (SocketCloses ws) in
      connectionState st' = disconnected /\
      isCapturing st' = false /\
      (forall inputData, step st' (AudioProcess inputData) = st') /\
      transcripts st' = transcripts st /\
      sessionId st' = sessionId st) /\
  (forall (st : State) (now : Z) (rnd : string),
      let st1 := step st (ClickConnect true) in
      let st2 := step st1 (SocketOpens (socketCount st) now rnd) in
      connectionState st2 = connected /\
      sessionId st2 = generateSessionId now rnd /\
      transcripts st2 = []) /\
  (forall (now now' : Z) (rnd rnd' : string),
      generateSessionId now rnd = generateSessionId now' rnd' ->
      now = now' /\ rnd = rnd').
Proof.
  split; [ | split ].
  - intros st ws Hws Hcur.
    destruct (remote_close_effects st ws Hws Hcur)
      as (_ & Hc & _ & Hcap & Hopen & Ht & Hs).
    repeat split; try assumption.
    intro inputData. cbn [step].
    rewrite (onaudioprocess_closed _ _ Hopen).
    destruct (processorRef _); reflexivity.
  - intros st now rnd.
    destruct (reconnect_effects st now rnd) as (Hc & _ & Hs & Ht).
    repeat split; assumption.
  - intros now now' rnd rnd'. apply stamped_inj.
Qed.

Lemma remote_close_then_reconnect_witness :
  let st :=
    run initialState
      [ClickConnect true;
       SocketOpens 0 1700000000000%Z "k3j9x0q2a";
       CaptureReady] in
  0 < socketCount st /\
  websocketRef st = Some 0 /\
  connectionState (step st (SocketCloses 0)) = disconnected /\
  isCapturing (step st (SocketCloses 0)) = false /\
  (generateSessionId 5 "a" = generateSessionId 5 "a" /\ 5%Z = 5%Z).
Proof.
  intro st.
  pose proof (proj1 remote_close_then_reconnect st 0
                (Nat.lt_0_succ 0) eq_refl) as (Hc & Hcap & _).
  pose proof (proj2 (proj2 remote_close_then_reconnect) 5%Z 5%Z
                "a"%string "a"%string eq_refl) as (Hn & _).
  split; [ apply Nat.lt_0_succ | split; [ reflexivity | ] ].
  split; [ exact Hc | split; [ exact Hcap | ] ].
  split; [ reflexivity | exact Hn ].
Defined.

(** C8 (as stated) fails: a session that logged one final transcript and
    was closed by the remote side loses the log when it reconnects. *)
Lemma transcript_log_lost_on_reconnect :
  connectionState droppedSession = disconnected /\
  List.length (transcripts droppedSession) = 1 /\
  transcripts
    (run droppedSession
       [ClickConnect true; SocketOpens 1 1700000009000%Z "z9y8x7w6v"])
  <> transcripts droppedSession.
Proof.
  split; [ reflexivity | split; [ reflexivity | ] ].
  vm_compute. discriminate.
Qed.

(** ** Transcript Assembler *)

Section TranscriptProjection.

Import TranscriptDisplay.

Lemma latest_In {A : Type} (l : list A) (x : A) : latest l = Some x -> In x l.
Proof.
  unfold latest. induction l as [ | y l IH ]; [ discriminate | ].
  cbn [map]. destruct l as [ | z l ].
  - cbn. intro H. injection H as ->. left. reflexivity.
  - intro H. right. apply IH. exact H.
Qed.

Lemma limitWordsOf_returns (v : value) (s : string) :
  limitWordsOf v = Returns s -> exists t, v = JStr t /\ s = limitWords t.
Proof.
  destruct v; cbn; try discriminate.
  intro H. injection H as <-. eexists. split; reflexivity.
Qed.

Lemma hasOwnTranslation_differs (e : TranscriptEntry) (t : string) :
  hasOwnTranslation e = true -> translated e = JStr t -> original e <> JStr t.
Proof.
  unfold hasOwnTranslation. intros H Ht Ho.
  rewrite Ht, Ho in H. cbn in H. rewrite String.eqb_refl in H.
  rewrite andb_false_r in H. discriminate.
Qed.

(** A text the projection shows is the translation of an entry of the log
    that differs from the original text of that entry. *)
Lemma projection_sound (ts : list TranscriptEntry) (cur s : string) :
  getCurrentTranslatedPartial ts cur = Returns s ->
  s = EmptyString \/
  exists e t,
    In e ts /\ translated e = JStr t /\ original e <> JStr t /\
    s = limitWords t.
Proof.
  unfold getCurrentTranslatedPartial.
  assert (Hshow : forall (keep : TranscriptEntry -> bool) e,
             latest (filter keep ts) = Some e ->
             hasOwnTranslation e = true ->
             limitWordsOf (translated e) = Returns s ->
             exists e t,
               In e ts /\ translated e = JStr t /\ original e <> JStr t /\
               s = limitWords t).
  { intros keep e Hlast Hown Hret.
    apply latest_In, filter_In in Hlast. destruct Hlast as [ Hin _ ].
    destruct (limitWordsOf_returns _ _ Hret) as (t & Ht & ->).
    exists e, t. repeat split; try assumption.
    apply hasOwnTranslation_differs; assumption. }
  destruct (negb (cur =? "")%string).
  2:{ intro H. injection H as <-. left. reflexivity. }
  destruct (latest (filter isPartial ts)) as [ p | ] eqn:Hp.
  - destruct (hasOwnTranslation p) eqn:Hown.
    + intro H. right. exact (Hshow _ _ Hp Hown H).
    + destruct (latest (filter isFinal ts)) as [ f | ] eqn:Hf.
      * destruct (hasOwnTranslation f) eqn:Hown'.
        -- intro H. right. exact (Hshow _ _ Hf Hown' H).
        -- intro H. injection H as <-. left. reflexivity.
      * intro H. injection H as <-. left. reflexivity.
  - destruct (latest (filter isFinal ts)) as [ f | ] eqn:Hf.
    + destruct (hasOwnTranslation f) eqn:Hown'.
      * intro H. right. exact (Hshow _ _ Hf Hown' H).
      * intro H. injection H as <-. left. reflexivity.
    + intro H. injection H as <-. left. reflexivity.
Qed.

(** Without an entry that has a translation of its own the projection is
    empty. *)
Lemma projection_empty (ts : list TranscriptEntry) (cur : string) :
  (forall e, In e ts -> hasOwnTranslation e = false) ->
  getCurrentTranslatedPartial ts cur = Returns EmptyString.
Proof.
  intro Hnone. unfold getCurrentTranslatedPartial.
  assert (Hno : forall (keep : TranscriptEntry -> bool) e,
             latest (filter keep ts) = Some e -> hasOwnTranslation e = false).
  { intros keep e Hlast. apply latest_In, filter_In in Hlast.
    apply Hnone. exact (proj1 Hlast). }
  destruct (negb (cur =? "")%string); [ | reflexivity ].
  destruct (latest (filter isPartial ts)) as [ p | ] eqn:Hp;
    [ rewrite (Hno _ _ Hp) | ];
    (destruct (latest (filter isFinal ts)) as [ f | ] eqn:Hf;
     [ rewrite (Hno _ _ Hf) | ]); reflexivity.
Qed.

(** The projection shows the word-limited translation that is picked, if
    there is a current partial text and a translation to pick. *)
Lemma projection_picks (ts : list TranscriptEntry) (cur : string) :
  getCurrentTranslatedPartial ts cur
  = if String.eqb cur EmptyString then Returns EmptyString
    else match pickedTranslation ts with
         | Some v => limitWordsOf v
         | None => Returns EmptyString
         end.
Proof.
  unfold getCurrentTranslatedPartial, pickedTranslation, ownTranslation.
  destruct (cur =? "")%string; cbn [negb]; [ reflexivity | ].
  destruct (latest (filter isPartial ts)) as [ p | ];
    [ destruct (hasOwnTranslation p); [ reflexivity | ] | ];
    (destruct (latest (filter isFinal ts)) as [ f | ];
     [ destruct (hasOwnTranslation f) | ]); reflexivity.
Qed.

End TranscriptProjection.

(** C9 (as amended).  The translated-text projection shows only
    translations: the word-limited translation of the latest partial entry,
    or else of the latest final entry, when that entry has a translation
    that differs from its original text.  Whatever it returns is empty or
    is such a translation; when no entry has one, or when there is no
    current partial text, it returns the empty string.  The original text
    is the default of the [translated] field of a final entry, set when the
    entry is built from a message without a translation. *)
Theorem translated_projection_shows_only_translations :
  (forall (ts : list TranscriptEntry) (cur : string),
      TranscriptDisplay.getCurrentTranslatedPartial ts cur
      = if String.eqb cur EmptyString then Returns EmptyString
        else match pickedTranslation ts with
             | Some v => TranscriptDisplay.limitWordsOf v
             | None => Returns EmptyString
             end) /\
  (forall (ts : list TranscriptEntry) (cur s : string),
      TranscriptDisplay.getCurrentTranslatedPartial ts cur = Returns s ->
      s = EmptyString \/
      exists e t,
        In e ts /\ translated e = JStr t /\ original e <> JStr t /\
        s = TranscriptDisplay.limitWords t) /\
  (forall (ts : list TranscriptEntry) (cur : string),
      (forall e, In e ts -> TranscriptDisplay.hasOwnTranslation e = false) ->
      TranscriptDisplay.getCurrentTranslatedPartial ts cur
      = Returns EmptyString) /\
  (forall ts : list TranscriptEntry,
      TranscriptDisplay.getCurrentTranslatedPartial ts EmptyString
      = Returns EmptyString) /\
  (forall (now : Z) (rnd : string) (data : InboundData),
      Js.truthy (data_translated data) = false ->
      translated (finalEntry now rnd data) = original (finalEntry now rnd data)).
Proof.
  split; [ exact projection_picks | ].
  split; [ exact projection_sound | split; [ exact projection_empty | split ] ].
  - intro ts. reflexivity.
  - intros now rnd data H. cbn. unfold Js.or. rewrite H. reflexivity.
Qed.

Lemma translated_projection_shows_only_translations_witness :
  let e := partialEntry 1700000000500%Z "p0o9i8u7y" (partialMessage "hello") in
  let f := finalEntry 1700000000900%Z "m1n2b3v4c" (finalMessage "hello") in
  (forall e', In e' [e] -> TranscriptDisplay.hasOwnTranslation e' = false) /\
  TranscriptDisplay.getCurrentTranslatedPartial [e] "hello"
  = Returns EmptyString /\
  Js.truthy (data_translated (finalMessage "hello")) = false /\
  translated f = original f /\
  (EmptyString = EmptyString \/
   exists e' t,
     In e' [e] /\ translated e' = JStr t /\ original e' <> JStr t /\
     EmptyString = TranscriptDisplay.limitWords t).
Proof.
  intros e f.
  assert (H : forall e', In e' [e] ->
                         TranscriptDisplay.hasOwnTranslation e' = false).
  { intros e' [ <- | [] ]. reflexivity. }
  pose proof (proj1 (proj2 (proj2
                translated_projection_shows_only_translations))
                [e] "hello"%string H) as Hempty.
  split; [ exact H | split; [ exact Hempty | split; [ reflexivity | ] ] ].
  split.
  - exact (proj2 (proj2 (proj2 (proj2
             translated_projection_shows_only_translations)))
             1700000000900%Z "m1n2b3v4c"%string (finalMessage "hello")
             eq_refl).
  - exact (proj1 (proj2 translated_projection_shows_only_translations)
             [e] "hello"%string EmptyString Hempty).
Defined.

(** C9 (as stated) fails: a partial entry without a translation of its own
    makes [hello] the current partial text, and the projection returns the
    empty string, not [hello], although the log is not empty. *)
Lemma translated_projection_has_no_fallback :
  let e := partialEntry 1700000000500%Z "p0o9i8u7y" (partialMessage "hello") in
  original e = JStr "hello" /\
  translated e = original e /\
  TranscriptDisplay.nextCurrentPartial [e] EmptyString = Returns "hello"%string /\
  TranscriptDisplay.getCurrentTranslatedPartial [e] "hello"
  = Returns EmptyString /\
  TranscriptDisplay.getCurrentTranslatedPartial [e] "hello"
  <> Returns "hello"%string.
Proof.
  repeat split; try reflexivity. vm_compute. discriminate.
Qed.

(** ** Final transcript entries *)

Lemma or_truthy (a b : value) :
  Js.truthy b = true -> Js.truthy (Js.or a b) = true.
Proof. unfold Js.or. destruct (Js.truthy a) eqn:E; auto. Qed.

Lemma truthy_not_zero (v : value) : Js.truthy v = true -> ~ isZero v.
Proof.
  destruct v as [ | | b | [ q | | | ] | s | r ]; cbn; try tauto.
  intros H Hq. apply Qeq_bool_iff in Hq. rewrite Hq in H. discriminate.
Qed.

Lemma zero_falsy (v : value) : isZero v -> Js.truthy v = false.
Proof.
  intro H. destruct (Js.truthy v) eqn:E; [ | reflexivity ].
  exfalso. exact (truthy_not_zero v E H).
Qed.

Lemma finalEntry_populated (now : Z) (rnd : string) (data : InboundData) :
  populated (finalEntry now rnd data).
Proof.
  intros _. cbn.
  assert (Hc : Js.truthy
                 (Js.or (data_confidence data) (JNum DEFAULT_CONFIDENCE))
               = true) by (apply or_truthy; reflexivity).
  split; [ apply or_truthy; reflexivity | ].
  split; [ exact Hc | apply truthy_not_zero; exact Hc ].
Qed.

Lemma partialEntry_populated (now : Z) (rnd : string) (data : InboundData) :
  populated (partialEntry now rnd data).
Proof. intro H. discriminate H. Qed.

Lemma step_transcripts (st : State) (ev : Event) :
  transcripts (step st ev) = transcripts st
  \/ transcripts (step st ev) = []
  \/ exists now rnd data,
       transcripts (step st ev) = transcripts st ++ [partialEntry now rnd data]
       \/ transcripts (step st ev) = transcripts st ++ [finalEntry now rnd data].
Proof.
  destruct ev; cbn [step].
  13:{ left. destruct (processorRef st); [ | reflexivity ].
       destruct (socketOpen st) eqn:Hopen.
       - destruct (onaudioprocess_open inputData st Hopen)
           as (_ & _ & _ & _ & _ & _ & Hview).
         unfold sessionView in Hview. congruence.
       - rewrite (onaudioprocess_closed _ _ Hopen). reflexivity. }
  all: unfold_handlers; split_cases; cbn;
    try (left; reflexivity); try (right; left; reflexivity).
  all: right; right; do 3 eexists;
    (left; reflexivity) || (right; reflexivity).
Qed.

Lemma run_populated (evs : list Event) (st : State) :
  Forall populated (transcripts st) ->
  Forall populated (transcripts (run st evs)).
Proof.
  revert st. induction evs as [ | ev evs IH ]; intros st Hinv; [ exact Hinv | ].
  apply IH.
  destruct (step_transcripts st ev)
    as [ -> | [ -> | (now & rnd & data & [ -> | -> ]) ] ].
  - exact Hinv.
  - constructor.
  - apply Forall_app. split; [ exact Hinv | ].
    constructor; [ apply partialEntry_populated | constructor ].
  - apply Forall_app. split; [ exact Hinv | ].
    constructor; [ apply finalEntry_populated | constructor ].
Qed.

(** C10.  A [final_transcript] message appends one final entry to the log.
    Its detected language is the one of the message, or [unknown] when the
    message has none; its confidence is the one of the message, or [0.9]
    when the message has none or has zero.  In every state the client can
    reach, each final entry of the log has both fields filled in and a
    confidence that is not zero. *)
Theorem final_entries_populated :
  (forall evs : list Event,
      Forall populated (transcripts (run initialState evs))) /\
  (forall (now : Z) (rnd : string) (data : InboundData) (st : State),
      data_type data = JStr "final_transcript" ->
      let e := finalEntry now rnd data in
      let st' := handleAzureWebSocketMessage now rnd data st in
      transcripts st' = transcripts st ++ [e] /\
      trace st' = trace st ++ [TranscriptUpdate e] /\
      type e = final /\
      Js.truthy (detectedLanguage e) = true /\
      Js.truthy (confidence e) = true /\
      ~ isZero (confidence e) /\
      (data_detectedLanguage data = JUndefined ->
       detectedLanguage e = JStr "unknown") /\
      (data_confidence data = JUndefined \/ isZero (data_confidence data) ->
       confidence e = JNum DEFAULT_CONFIDENCE) /\
      (Js.truthy (data_detectedLanguage data) = true ->
       detectedLanguage e = data_detectedLanguage data) /\
      (Js.truthy (data_confidence data) = true ->
       confidence e = data_confidence data)).
Proof.
  split.
  - intro evs. apply run_populated. constructor.
  - intros now rnd data st Htype e st'.
    destruct (finalEntry_populated now rnd data eq_refl) as (Hl & Hc & Hz).
    unfold st', handleAzureWebSocketMessage. rewrite Htype. cbn.
    repeat split; try assumption.
    + intro H. rewrite H. reflexivity.
    + intros [ H | H ]; unfold Js.or.
      * rewrite H. reflexivity.
      * rewrite (zero_falsy _ H). reflexivity.
    + intro H. unfold Js.or. rewrite H. reflexivity.
    + intro H. unfold Js.or. rewrite H. reflexivity.
Qed.

Lemma final_entries_populated_witness :
  let bare := finalMessage "hello" in
  let zero := finalMessageWith "hello" (JStr "hi") (JNum (Fin 0)) in
  let full := finalMessageWith "hello" (JStr "hi") (JNum (Fin (4 # 5))) in
  (data_type bare = JStr "final_transcript" /\
   data_detectedLanguage bare = JUndefined /\
   data_confidence bare = JUndefined /\
   detectedLanguage (finalEntry 0 "r" bare) = JStr "unknown" /\
   confidence (finalEntry 0 "r" bare) = JNum DEFAULT_CONFIDENCE) /\
  (isZero (data_confidence zero) /\
   confidence (finalEntry 0 "r" zero) = JNum DEFAULT_CONFIDENCE) /\
  (Js.truthy (data_detectedLanguage full) = true /\
   Js.truthy (data_confidence full) = true /\
   detectedLanguage (finalEntry 0 "r" full) = JStr "hi" /\
   confidence (finalEntry 0 "r" full) = JNum (Fin (4 # 5))).
Proof.
  intros bare zero full.
  pose proof (proj2 final_entries_populated 0%Z "r"%string bare initialState
                eq_refl) as (_ & _ & _ & _ & _ & _ & Hl & Hc & _).
  pose proof (proj2 final_entries_populated 0%Z "r"%string zero initialState
                eq_refl) as (_ & _ & _ & _ & _ & _ & _ & Hz & _).
  pose proof (proj2 final_entries_populated 0%Z "r"%string full initialState
                eq_refl) as (_ & _ & _ & _ & _ & _ & _ & _ & Hfl & Hfc).
  split; [ | split ].
  - split; [ reflexivity | split; [ reflexivity | split; [ reflexivity | ] ] ].
    split; [ exact (Hl eq_refl) | exact (Hc (or_introl eq_refl)) ].
  - assert (Hzero : isZero (data_confidence zero)) by reflexivity.
    split; [ exact Hzero | exact (Hz (or_intror Hzero)) ].
  - split; [ reflexivity | split; [ reflexivity | ] ].
    split; [ exact (Hfl eq_refl) | exact (Hfc eq_refl) ].
Defined.

(** * Further properties *)

(** ** The conversion keeps order and stays within one unit *)

Section ConversionOrder.

Import SampleConverter.

Ltac Qltb_to_Prop :=
  repeat match goal with
    | H : JsNum.Qltb _ _ = true |- _ => apply Qltb_lt in H
    | H : JsNum.Qltb _ _ = false |- _ => apply Qltb_ge in H
    end.

Lemma clampQ_monotone (q q' : Q) : (q <= q')%Q -> (clampQ q <= clampQ q')%Q.
Proof.
  intro H. unfold clampQ.
  destruct (JsNum.Qltb q 1) eqn:E1, (JsNum.Qltb q' 1) eqn:E1',
    (JsNum.Qltb (-1) q) eqn:E2, (JsNum.Qltb (-1) q') eqn:E2';
    Qltb_to_Prop; lra.
Qed.

Lemma rounded_monotone (c c' : Q) : (c <= c')%Q -> (rounded c <= rounded c')%Z.
Proof.
  intro H. unfold rounded.
  destruct (JsNum.Qltb c 0) eqn:E, (JsNum.Qltb c' 0) eqn:E'; Qltb_to_Prop.
  - apply Qceiling_resp_le. lra.
  - apply Z.le_trans with 0%Z.
    + rewrite <- (Qceiling_Z 0). apply Qceiling_resp_le.
      change (inject_Z 0) with 0%Q. lra.
    + rewrite <- (Qfloor_Z 0). apply Qfloor_resp_le.
      change (inject_Z 0) with 0%Q. lra.
  - lra.
  - apply Qfloor_resp_le. lra.
Qed.

(** X1.  The conversion keeps the order of the samples: a larger sample is
    never stored as a smaller value. *)
Theorem convertSample_monotone (q q' : Q) :
  (q <= q')%Q ->
  (convertSample (Fin q) <= convertSample (Fin q'))%Z.
Proof.
  intro H. rewrite !convertSample_finite.
  apply rounded_monotone, clampQ_monotone, H.
Qed.

Lemma convertSample_monotone_witness :
  (-3 # 4 <= 1 # 3)%Q /\
  (convertSample (Fin (-3 # 4)) <= convertSample (Fin (1 # 3)))%Z.
Proof.
  assert (H : (-3 # 4 <= 1 # 3)%Q) by discriminate.
  split; [ exact H | exact (convertSample_monotone _ _ H) ].
Defined.

(** X2.  The stored value is the scaled clamped sample cut toward zero: it
    is never larger in absolute value, and it is less than one unit away. *)
Theorem convertSample_within_one_unit (q : Q) :
  let c := clampQ q in
  let scaled := if JsNum.Qltb c 0 then (c * 32768)%Q else (c * 32767)%Q in
  let stored := inject_Z (convertSample (Fin q)) in
  (Qabs stored <= Qabs scaled)%Q /\ (Qabs (scaled - stored) < 1)%Q.
Proof.
  intros c scaled stored. unfold stored, scaled.
  rewrite convertSample_finite. fold c. unfold rounded.
  destruct (JsNum.Qltb c 0) eqn:E; Qltb_to_Prop.
  - pose proof (Qle_ceiling (c * 32768)) as Hup.
    pose proof (Qceiling_lt (c * 32768)) as Hlow.
    unfold Z.sub in Hlow. rewrite inject_Z_plus in Hlow.
    change (inject_Z (- (1))) with (- (1))%Q in Hlow.
    assert (Hz : (inject_Z (Qceiling (c * 32768)) <= 0)%Q).
    { change 0%Q with (inject_Z 0). rewrite <- Zle_Qle.
      rewrite <- (Qceiling_Z 0). apply Qceiling_resp_le.
      change (inject_Z 0) with 0%Q. lra. }
    split.
    + rewrite (Qabs_neg _ Hz). rewrite Qabs_neg by lra. lra.
    + apply Qabs_Qlt_condition. lra.
  - pose proof (Qfloor_le (c * 32767)) as Hlow.
    pose proof (Qlt_floor (c * 32767)) as Hup.
    rewrite inject_Z_plus in Hup. change (inject_Z 1) with 1%Q in Hup.
    assert (Hz : (0 <= inject_Z (Qfloor (c * 32767)))%Q).
    { change 0%Q with (inject_Z 0). rewrite <- Zle_Qle.
      rewrite <- (Qfloor_Z 0). apply Qfloor_resp_le.
      change (inject_Z 0) with 0%Q. lra. }
    split.
    + rewrite (Qabs_pos _ Hz). rewrite Qabs_pos by lra. lra.
    + apply Qabs_Qlt_condition. lra.
Qed.

Lemma isLoud_finite (q : Q) :
  isLoud (Fin q)
  = JsNum.Qltb (5764607523034235 # 576460752303423488) (Qabs (clampQ q)).
Proof. unfold isLoud. rewrite clamp_finite. reflexivity. Qed.

Lemma quiet_sample_range (s : number) :
  isLoud s = false -> (-327 <= convertSample s <= 327)%Z.
Proof.
  destruct s as [ q | | | ].
  2:{ intros _. change (convertSample NaN) with 0%Z. lia. }
  2,3: intro H; vm_compute in H; discriminate H.
  rewrite isLoud_finite, convertSample_finite. intro H. Qltb_to_Prop.
  apply Qabs_Qle_condition in H. destruct H as [ Hlo Hhi ].
  unfold rounded. destruct (JsNum.Qltb (clampQ q) 0) eqn:E; Qltb_to_Prop.
  - split.
    + change (-327)%Z
        with (Qceiling (- (5764607523034235 # 576460752303423488) * 32768)).
      apply Qceiling_resp_le. lra.
    + apply Z.le_trans with 0%Z; [ | lia ].
      rewrite <- (Qceiling_Z 0). apply Qceiling_resp_le.
      change (inject_Z 0) with 0%Q. lra.
  - split.
    + apply Z.le_trans with 0%Z; [ lia | ].
      rewrite <- (Qfloor_Z 0). apply Qfloor_resp_le.
      change (inject_Z 0) with 0%Q. lra.
    + change 327%Z
        with (Qfloor ((5764607523034235 # 576460752303423488) * 32767)).
      apply Qfloor_resp_le. lra.
Qed.

Lemma loud_sample_range (s : number) :
  isLoud s = true -> (327 <= Z.abs (convertSample s))%Z.
Proof.
  destruct s as [ q | | | ].
  2:{ intro H. vm_compute in H. discriminate H. }
  2:{ intros _. change (convertSample PosInf) with 32767%Z. lia. }
  2:{ intros _. change (convertSample NegInf) with (-32768)%Z. lia. }
  rewrite isLoud_finite, convertSample_finite. intro H. Qltb_to_Prop.
  unfold rounded. destruct (JsNum.Qltb (clampQ q) 0) eqn:E; Qltb_to_Prop.
  - rewrite Qabs_neg in H by lra.
    assert (Hc : (Qceiling (clampQ q * 32768)
                  <= Qceiling (- (5764607523034235 # 576460752303423488)
                               * 32768))%Z)
      by (apply Qceiling_resp_le; lra).
    change (Qceiling (- (5764607523034235 # 576460752303423488) * 32768))
      with (-327)%Z in Hc.
    lia.
  - rewrite Qabs_pos in H by lra.
    assert (Hc : (Qfloor ((5764607523034235 # 576460752303423488) * 32767)
                  <= Qfloor (clampQ q * 32767))%Z)
      by (apply Qfloor_resp_le; lra).
    change (Qfloor ((5764607523034235 # 576460752303423488) * 32767))
      with 327%Z in Hc.
    lia.
Qed.

(** X3.  What the silence test means for the converted frame: a frame that
    is skipped holds only values between -327 and 327, and a frame that
    passes the test holds a value of magnitude 327 or more. *)
Theorem silent_frame_values (frameSamples : list number) :
  List.length frameSamples = FRAME_SIZE ->
  (snd (convertFrame frameSamples) = false ->
   Forall (fun z => (-327 <= z <= 327)%Z) (fst (convertFrame frameSamples))) /\
  (snd (convertFrame frameSamples) = true ->
   Exists (fun z => (327 <= Z.abs z)%Z) (fst (convertFrame frameSamples))).
Proof.
  intro Hlen. rewrite (convertFrame_full _ Hlen). cbn [fst snd].
  split; intro H.
  - apply Forall_forall. intros z Hz. apply in_map_iff in Hz.
    destruct Hz as (s & <- & Hs). apply quiet_sample_range.
    destruct (isLoud s) eqn:E; [ | reflexivity ].
    assert (Hex : existsb isLoud frameSamples = true)
      by (apply existsb_exists; exists s; split; assumption).
    congruence.
  - apply existsb_exists in H. destruct H as (s & Hs & Hloud).
    apply Exists_exists. exists (convertSample s).
    split; [ apply in_map; exact Hs | apply loud_sample_range, Hloud ].
Qed.

Lemma silent_frame_values_witness :
  let quiet := repeat (Fin (1 # 200)) 2048 in
  let loud := Fin (-1 # 2) :: repeat (Fin 0) 2047 in
  (List.length quiet = FRAME_SIZE /\
   snd (convertFrame quiet) = false /\
   Forall (fun z => (-327 <= z <= 327)%Z) (fst (convertFrame quiet))) /\
  (List.length loud = FRAME_SIZE /\
   snd (convertFrame loud) = true /\
   Exists (fun z => (327 <= Z.abs z)%Z) (fst (convertFrame loud))).
Proof.
  intros quiet loud.
  assert (Hq : List.length quiet = FRAME_SIZE) by (vm_compute; reflexivity).
  assert (Hl : List.length loud = FRAME_SIZE) by (vm_compute; reflexivity).
  assert (Hqs : snd (convertFrame quiet) = false) by (vm_compute; reflexivity).
  assert (Hls : snd (convertFrame loud) = true) by (vm_compute; reflexivity).
  split.
  - split; [ exact Hq | split; [ exact Hqs | ] ].
    exact (proj1 (silent_frame_values quiet Hq) Hqs).
  - split; [ exact Hl | split; [ exact Hls | ] ].
    exact (proj2 (silent_frame_values loud Hl) Hls).
Defined.

End ConversionOrder.

(** ** What each event adds to the trace *)

Ltac absurd_eqb :=
  match goal with
  | H : (?x =? ?x) = false |- _ => rewrite Nat.eqb_refl in H; discriminate H
  end.

Lemma framesSent_app (a b : list Effect) :
  framesSent (a ++ b) = framesSent a ++ framesSent b.
Proof.
  induction a as [ | e a IH ]; [ reflexivity | ].
  cbn. destruct (binaryPayload e); cbn; rewrite IH; reflexivity.
Qed.

Lemma noFrames_framesSent (es : list Effect) :
  noFrames es = true -> framesSent es = [].
Proof.
  induction es as [ | e es IH ]; [ reflexivity | ].
  cbn. destruct (binaryPayload e); cbn; [ discriminate | exact IH ].
Qed.

Lemma framesSent_binary (ws : Socket) (payloads : list (list Z)) :
  framesSent (map (SendBinary ws) payloads) = payloads.
Proof.
  induction payloads as [ | p rest IH ]; [ reflexivity | ].
  cbn. rewrite IH. reflexivity.
Qed.

Lemma sendsOn_binary (ws : Socket) (cands : list Candidate) :
  sendsOn ws cands = map (SendBinary ws) (map pcm (filter transmitted cands)).
Proof.
  unfold sendsOn. induction cands as [ | c cands IH ]; [ reflexivity | ].
  cbn [flat_map filter]. destruct (transmitted c); cbn; rewrite IH;
    reflexivity.
Qed.

Section FramesOnTheWire.

Import SampleConverter.

Lemma convertSample_range (s : number) :
  (-32768 <= convertSample s <= 32767)%Z.
Proof.
  destruct s as [ q | | | ].
  - rewrite convertSample_finite. apply rounded_range, clampQ_range.
  - change (convertSample NaN) with 0%Z. lia.
  - change (convertSample PosInf) with 32767%Z. lia.
  - change (convertSample NegInf) with (-32768)%Z. lia.
Qed.

Lemma wellFormed_isFrame (open : bool) (c : Candidate) :
  wellFormed open c -> isFrame (pcm c).
Proof.
  intros (Hlen & Hpcm & _). rewrite Hpcm. split.
  - rewrite length_map. exact Hlen.
  - apply Forall_forall. intros z Hz. apply in_map_iff in Hz.
    destruct Hz as (s & <- & _). apply convertSample_range.
Qed.

End FramesOnTheWire.

Lemma testFrame_isFrame : isFrame testFrame.
Proof.
  unfold isFrame, testFrame. split; [ apply repeat_length | ].
  apply Forall_forall. intros z Hz. apply repeat_spec in Hz. subst z. lia.
Qed.

(** An event adds to the trace either full frames on the current socket,
    which is open (the frames of the candidates that the audio callback
    cut and found loud, or the test frame), or effects without a frame;
    the current socket stays, is dropped, or becomes a socket on which the
    event has sent [session_init]. *)
Lemma step_delta (st : State) (ev : Event) :
  exists es,
    trace (step st ev) = trace st ++ es /\
    ((exists ws payloads,
         websocketRef st = Some ws /\
         socketOpen st = true /\
         es = map (SendBinary ws) payloads /\
         Forall isFrame payloads /\
         websocketRef (step st ev) = websocketRef st)
     \/ (noFrames es = true /\
         (websocketRef (step st ev) = websocketRef st
          \/ websocketRef (step st ev) = None
          \/ exists ws,
               websocketRef (step st ev) = Some ws /\
               announced ws es = true))).
Proof.
  destruct ev; cbn [step].
  14:{ unfold sendTestFrame, ws_send, socketOpen.
       destruct (websocketRef st) as [ ws | ] eqn:Hcur;
         [ | exists []; rewrite app_nil_r; split; [ reflexivity | ];
             right; split; [ reflexivity | left; exact Hcur ] ].
       destruct (readyState st ws) eqn:Hready; cbn [is_open];
         try (exists []; rewrite app_nil_r; split; [ reflexivity | ];
              right; split; [ reflexivity | left; exact Hcur ]).
       exists [SendBinary ws testFrame]. split; [ reflexivity | left ].
       exists ws, [testFrame].
       split; [ reflexivity | split; [ reflexivity | ] ].
       split; [ reflexivity | split; [ | exact Hcur ] ].
       constructor; [ apply testFrame_isFrame | constructor ]. }
  13:{ destruct (processorRef st);
         [ | exists []; rewrite app_nil_r; split; [ reflexivity | ];
             right; split; [ reflexivity | left; reflexivity ] ].
       destruct (socketOpen st) eqn:Hopen.
       - destruct (onaudioprocess_open inputData st Hopen)
           as (cands & _ & Ht & Hwf & _ & _ & Hview).
         exists (sendsOf st cands). split; [ exact Ht | left ].
         unfold socketOpen, sendsOf in *.
         destruct (websocketRef st) as [ ws | ] eqn:Hcur; [ | discriminate ].
         exists ws, (map pcm (filter transmitted cands)).
         split; [ reflexivity | split; [ reflexivity | ] ].
         split; [ apply sendsOn_binary | split ].
         + apply Forall_forall. intros payload Hin. apply in_map_iff in Hin.
           destruct Hin as (c & <- & Hc). apply filter_In in Hc.
           rewrite Forall_forall in Hwf.
           exact (wellFormed_isFrame _ _ (Hwf c (proj1 Hc))).
         + rewrite <- Hcur. apply view_websocketRef, Hview.
       - rewrite (onaudioprocess_closed _ _ Hopen).
         exists []. rewrite app_nil_r. split; [ reflexivity | ].
         right. split; [ reflexivity | left; reflexivity ]. }
  8:{ destruct (ws <? socketCount st) eqn:Hws;
        [ | exists []; rewrite app_nil_r; split; [ reflexivity | ];
            right; split; [ reflexivity | left; reflexivity ] ].
      destruct (readyState st ws) eqn:Hready;
        try (exists []; rewrite app_nil_r; split; [ reflexivity | ];
             right; split; [ reflexivity | left; reflexivity ]).
      apply Nat.ltb_lt in Hws.
      pose proof (socket_open_effects st ws now rnd Hws Hready) as Hopen.
      cbn [step] in Hopen. apply Nat.ltb_lt in Hws. rewrite Hws, Hready in Hopen.
      destruct Hopen as (Ht & _ & _ & Hw & _).
      eexists. split; [ exact Ht | ].
      right. split; [ reflexivity | ].
      right. right. exists ws. split; [ exact Hw | ].
      cbn. rewrite Nat.eqb_refl. reflexivity. }
  all: unfold_handlers; split_cases; cbn; try absurd_eqb;
    rewrite <- ?app_assoc;
    eexists; (split; [ try reflexivity; symmetry; apply app_nil_r | ]);
    right; (split; [ reflexivity | ]).
  all: first
         [ left; reflexivity
         | right; left; reflexivity
         | right; right; eexists; split;
           [ reflexivity | cbn; rewrite Nat.eqb_refl; reflexivity ]
         | left; assumption
         | left; congruence ].
Qed.

Lemma step_frames (st : State) (ev : Event) :
  Forall isFrame (framesSent (trace st)) ->
  Forall isFrame (framesSent (trace (step st ev))).
Proof.
  intro Hinv.
  destruct (step_delta st ev)
    as (es & -> & [ (ws & payloads & _ & _ & -> & Hfull & _) | (Hno & _) ]).
  - rewrite framesSent_app, framesSent_binary.
    apply Forall_app. split; [ exact Hinv | exact Hfull ].
  - rewrite framesSent_app, (noFrames_framesSent _ Hno), app_nil_r.
    exact Hinv.
Qed.

(** X4.  Whatever happens to the client, every audio frame it has sent
    holds exactly [FRAME_SIZE] values, each in the signed 16-bit range: a
    partial frame is never sent. *)
Theorem frames_sent_are_full (evs : list Event) :
  Forall isFrame (framesSent (trace (run initialState evs))).
Proof.
  assert (H : forall st,
             Forall isFrame (framesSent (trace st)) ->
             Forall isFrame (framesSent (trace (run st evs)))).
  { induction evs as [ | ev evs IH ]; intros st Hst; [ exact Hst | ].
    apply IH, step_frames, Hst. }
  apply H. constructor.
Qed.

(** ** Audio frames follow the start of the session *)

Lemma initedAfter_app (inited : list Socket) (a b : list Effect) :
  initedAfter inited (a ++ b)
  = match initedAfter inited a with
    | Some inited' => initedAfter inited' b
    | None => None
    end.
Proof.
  revert inited. induction a as [ | e a IH ]; intro inited; [ reflexivity | ].
  destruct e as [ | | | | ws m | ws p | | | | | | | ]; cbn; try apply IH.
  - destruct m; apply IH.
  - destruct (existsb (Nat.eqb ws) inited); [ apply IH | reflexivity ].
Qed.

Lemma In_existsb_eqb (ws : Socket) (l : list Socket) :
  existsb (Nat.eqb ws) l = true <-> In ws l.
Proof.
  rewrite existsb_exists. split.
  - intros (w & Hin & Heq). apply Nat.eqb_eq in Heq. subst w. exact Hin.
  - intro Hin. exists ws. split; [ exact Hin | apply Nat.eqb_refl ].
Qed.

(** Effects without a frame are always in order; they only add sockets. *)
Lemma initedAfter_noFrames (inited : list Socket) (es : list Effect) :
  noFrames es = true ->
  exists inited',
    initedAfter inited es = Some inited' /\
    incl inited inited' /\
    (forall ws, announced ws es = true -> In ws inited').
Proof.
  revert inited. induction es as [ | e es IH ]; intros inited Hno.
  - exists inited. repeat split; [ apply incl_refl | discriminate ].
  - cbn in Hno. apply andb_prop in Hno. destruct Hno as [ He Hno ].
    assert (Hskip : forall keep : list Socket,
               incl inited keep ->
               (forall ws, announces ws e = true -> In ws keep) ->
               initedAfter inited (e :: es) = initedAfter keep es ->
               exists inited',
                 initedAfter inited (e :: es) = Some inited' /\
                 incl inited inited' /\
                 (forall ws, announced ws (e :: es) = true -> In ws inited')).
    { intros keep Hincl Hann ->.
      destruct (IH keep Hno) as (inited' & Hs & Hi & Ha).
      exists inited'. repeat split; [ exact Hs | | ].
      - intros w Hw. apply Hi, Hincl, Hw.
      - intros ws Hws. unfold announced in Hws. cbn [existsb] in Hws.
        apply orb_prop in Hws.
        destruct Hws as [ Hws | Hws ]; [ apply Hi, Hann, Hws | apply Ha, Hws ]. }
    destruct e as [ | | | | ws m | ws p | | | | | | | ];
      try (apply (Hskip inited);
           [ apply incl_refl | discriminate | reflexivity ]).
    + destruct m.
      * apply (Hskip (ws :: inited)); [ apply incl_tl, incl_refl | | reflexivity ].
        intros w Hw. cbn in Hw. apply Nat.eqb_eq in Hw. subst w.
        left. reflexivity.
      * apply (Hskip inited); [ apply incl_refl | discriminate | reflexivity ].
    + discriminate He.
Qed.

(** Frames on a socket that already had its [session_init] are in order. *)
Lemma initedAfter_binary (inited : list Socket) (ws : Socket)
  (payloads : list (list Z)) :
  In ws inited ->
  initedAfter inited (map (SendBinary ws) payloads) = Some inited.
Proof.
  intro Hin. induction payloads as [ | p rest IH ]; [ reflexivity | ].
  cbn. rewrite (proj2 (In_existsb_eqb ws inited) Hin). exact IH.
Qed.

(** What a successful scan says about each frame of the trace. *)
Lemma initedAfter_sound (inited inited' : list Socket) (tr pre post : list Effect)
  (ws : Socket) (payload : list Z) :
  initedAfter inited tr = Some inited' ->
  tr = pre ++ SendBinary ws payload :: post ->
  In ws inited \/ announced ws pre = true.
Proof.
  revert inited tr. induction pre as [ | e pre IH ]; intros inited tr Hscan ->.
  - cbn in Hscan. left. apply In_existsb_eqb.
    destruct (existsb (Nat.eqb ws) inited); [ reflexivity | discriminate ].
  - assert (Hrest : forall keep : list Socket,
               initedAfter keep (pre ++ SendBinary ws payload :: post)
               = Some inited' ->
               (In ws keep -> In ws inited \/ announces ws e = true) ->
               In ws inited \/ announced ws (e :: pre) = true).
    { intros keep Hk Hkeep.
      destruct (IH keep _ Hk eq_refl) as [ Hin | Hann ].
      - destruct (Hkeep Hin) as [ H | H ]; [ left; exact H | ].
        right. unfold announced. cbn [existsb]. rewrite H. reflexivity.
      - right. unfold announced in *. cbn [existsb]. rewrite Hann.
        apply orb_true_r. }
    cbn [app] in Hscan.
    destruct e as [ | | | | w m | w p | | | | | | | ]; cbn in Hscan;
      try (apply (Hrest inited Hscan); intro H; left; exact H).
    + destruct m; cbn in Hscan.
      * apply (Hrest (w :: inited) Hscan).
        intros [ <- | H ]; [ right; cbn; apply Nat.eqb_refl | left; exact H ].
      * apply (Hrest inited Hscan). intro H. left. exact H.
    + destruct (existsb (Nat.eqb w) inited); [ | discriminate ].
      apply (Hrest inited Hscan). intro H. left. exact H.
Qed.

Lemma step_sessionStarted (st : State) (ev : Event) :
  sessionStarted st -> sessionStarted (step st ev).
Proof.
  intros (inited & Hscan & Hcur).
  destruct (step_delta st ev)
    as (es & Ht & [ (ws & payloads & Hws & _ & -> & _ & Hw) | (Hno & Hw) ]).
  - exists inited. rewrite Ht, initedAfter_app, Hscan, Hw.
    split; [ | exact Hcur ].
    apply initedAfter_binary, Hcur, Hws.
  - destruct (initedAfter_noFrames inited es Hno) as (inited' & Hs & Hi & Ha).
    exists inited'. rewrite Ht, initedAfter_app, Hscan.
    split; [ exact Hs | ].
    intros ws Hws.
    destruct Hw as [ Hw | [ Hw | (w & Hw & Hann) ] ].
    + apply Hi, Hcur. congruence.
    + congruence.
    + apply Ha. congruence.
Qed.

Lemma run_sessionStarted (evs : list Event) (st : State) :
  sessionStarted st -> sessionStarted (run st evs).
Proof.
  revert st. induction evs as [ | ev evs IH ]; intros st H; [ exact H | ].
  apply IH, step_sessionStarted, H.
Qed.

(** X5.  Whatever happens to the client, an audio frame goes out on a
    socket only after [session_init] has gone out on that socket. *)
Theorem frames_follow_session_init (evs : list Event) (pre post : list Effect)
  (ws : Socket) (payload : list Z) :
  trace (run initialState evs) = pre ++ SendBinary ws payload :: post ->
  announced ws pre = true.
Proof.
  intro Htrace.
  assert (Hinit : sessionStarted initialState).
  { exists []. split; [ reflexivity | discriminate ]. }
  destruct (run_sessionStarted evs _ Hinit) as (inited & Hscan & _).
  destruct (initedAfter_sound _ _ _ _ _ _ _ Hscan Htrace) as [ [] | H ].
  exact H.
Qed.

Lemma frames_follow_session_init_witness :
  let chunk := repeat (Fin (1 # 2)) 2048 in
  let evs :=
    [ClickConnect true; SocketOpens 0 0 "r"; CaptureReady;
     AudioProcess chunk] in
  let pre := firstn 6 (trace (run initialState evs)) in
  let payload := map SampleConverter.convertSample chunk in
  trace (run initialState evs) = pre ++ [SendBinary 0 payload] /\
  announced 0 pre = true.
Proof.
  intros chunk evs pre payload.
  assert (H : trace (run initialState evs) = pre ++ [SendBinary 0 payload])
    by (vm_compute; reflexivity).
  split; [ exact H | ].
  exact (frames_follow_session_init evs pre [] 0 payload H).
Defined.

(** ** Changing the language pair *)

Lemma step_sessionKnown (st : State) (ev : Event) :
  sessionKnown st -> sessionKnown (step st ev).
Proof.
  unfold sessionKnown. intro Hinv.
  destruct ev; cbn [step].
  13:{ destruct (processorRef st); [ | exact Hinv ].
       destruct (socketOpen st) eqn:Hopen.
       - destruct (onaudioprocess_open inputData st Hopen)
           as (_ & _ & _ & _ & _ & _ & Hview).
         unfold sessionView in Hview. intros ws Hws.
         replace (sessionIdRef (onaudioprocess inputData st))
           with (sessionIdRef st) by congruence.
         apply (Hinv ws). congruence.
       - rewrite (onaudioprocess_closed _ _ Hopen). exact Hinv. }
  all: unfold_handlers; split_cases; cbn; intros w Hw;
    try discriminate Hw; try (exact (Hinv w Hw)); try discriminate.
  all: try (eapply Hinv; eassumption).
  all: try (exfalso; congruence).
  all: eapply Hinv; reflexivity.
Qed.

Lemma run_sessionKnown (evs : list Event) (st : State) :
  sessionKnown st -> sessionKnown (run st evs).
Proof.
  revert st. induction evs as [ | ev evs IH ]; intros st H; [ exact H | ].
  apply IH, step_sessionKnown, H.
Qed.

Lemma languageChange_effects (st : State) (newPair : LanguagePair) :
  sessionKnown st ->
  let st' := step st (ChangeLanguage newPair) in
  languagePair st' = newPair /\
  sessionId st' = sessionId st /\
  sessionIdRef st' = sessionIdRef st /\
  socketCount st' = socketCount st /\
  websocketRef st' = websocketRef st /\
  readyState st' = readyState st /\
  connectionState st' = connectionState st /\
  transcripts st' = transcripts st /\
  trace st'
  = trace st
    ++ match websocketRef st with
       | Some ws =>
           if is_open (readyState st ws)
           then [SendText ws (update_language newPair)]
           else []
       | None => []
       end.
Proof.
  intro Hknown. cbn [step].
  unfold handleLanguageChange, languagePairEffect, ws_send, emit. cbn.
  destruct (websocketRef st) as [ ws | ] eqn:Hws.
  - destruct (readyState st ws) eqn:Hready; cbn;
      rewrite ?app_nil_r; try (repeat split; first [ reflexivity | congruence ]).
    destruct (String.eqb_spec (sessionIdRef st) EmptyString) as [ He | _ ];
      [ exfalso; exact (Hknown ws Hws He) | ].
    cbn. rewrite ?Hready. cbn. repeat split; first [ reflexivity | congruence ].
  - rewrite app_nil_r.
    repeat split; first [ reflexivity | exact Hws | congruence ].
Qed.

(** X6.  In every state the client can reach, a change of the language
    pair sends exactly one [update_language] with the new pair on the
    current socket when that socket is open, and nothing otherwise; it
    opens no socket and keeps the session identifier, the connection state
    and the transcript log. *)
Theorem language_change_updates_session (evs : list Event)
  (newPair : LanguagePair) :
  let st := run initialState evs in
  let st' := step st (ChangeLanguage newPair) in
  languagePair st' = newPair /\
  sessionId st' = sessionId st /\
  socketCount st' = socketCount st /\
  websocketRef st' = websocketRef st /\
  connectionState st' = connectionState st /\
  transcripts st' = transcripts st /\
  effectsSince st st'
  = match websocketRef st with
    | Some ws =>
        if is_open (readyState st ws)
        then [SendText ws (update_language newPair)]
        else []
    | None => []
    end.
Proof.
  intros st st'.
  assert (Hknown : sessionKnown st).
  { apply run_sessionKnown. intros ws Hws. discriminate Hws. }
  destruct (languageChange_effects st newPair Hknown)
    as (Hl & Hs & _ & Hc & Hw & _ & Hcs & Htr & Ht).
  fold st' in Hl, Hs, Hc, Hw, Hcs, Htr, Ht.
  rewrite (since_trace _ _ _ Ht). repeat split; assumption.
Qed.

(** ** Inbound messages *)

Lemma message_not_acted_on (now : Z) (rnd : string) (data : InboundData)
  (st : State) :
  ~ actedOn (data_type data) ->
  handleAzureWebSocketMessage now rnd data st = st.
Proof.
  intro H. unfold handleAzureWebSocketMessage, actedOn in *.
  destruct (data_type data) as [ | | | | t | ]; try reflexivity.
  destruct (String.eqb_spec t "partial_transcript") as [ -> | _ ];
    [ exfalso; apply H; left; reflexivity | ].
  destruct (String.eqb_spec t "final_transcript") as [ -> | _ ];
    [ exfalso; apply H; right; left; reflexivity | ].
  destruct (String.eqb_spec t "error") as [ -> | _ ];
    [ exfalso; apply H; right; right; reflexivity | reflexivity ].
Qed.

(** X7.  A message that cannot be parsed, or whose type is missing or is
    none of [partial_transcript], [final_transcript] and [error], changes
    nothing: not the connection state, not the transcript log, not the
    trace. *)
Theorem unrecognised_message_ignored (st : State) (ws : Socket) (now : Z)
  (rnd : string) (parsed : option InboundData) :
  (forall data, parsed = Some data -> ~ actedOn (data_type data)) ->
  step st (SocketMessage ws now rnd parsed) = st.
Proof.
  intro H. cbn [step].
  destruct (ws <? socketCount st); [ | reflexivity ].
  destruct (readyState st ws); try reflexivity;
    (destruct parsed as [ data | ]; [ | reflexivity ]);
    apply message_not_acted_on, H; reflexivity.
Qed.

Lemma unrecognised_message_ignored_witness :
  let data :=
    {| data_type := JStr "ack"; data_original := JUndefined;
       data_translated := JUndefined; data_text := JUndefined;
       data_timestamp := JUndefined; data_has_translation := JUndefined;
       data_detectedLanguage := JUndefined; data_confidence := JUndefined;
       data_message := JUndefined |} in
  ~ actedOn (data_type data) /\
  step streaming (SocketMessage 0 5 "r" (Some data)) = streaming.
Proof.
  intro data.
  assert (H : ~ actedOn (data_type data)).
  { intros [ H | [ H | H ] ]; discriminate H. }
  split; [ exact H | ].
  apply unrecognised_message_ignored.
  intros d Hd. injection Hd as <-. exact H.
Defined.

(** X8.  An [error] message from the remote side sets the connection state
    to [error] and does nothing else: the socket is not closed and stays
    the current one, the component still counts as connected and
    capturing, and the frame buffer and the log are as before, so audio
    keeps being sent. *)
Theorem error_message_keeps_channel (st : State) (ws : Socket) (now : Z)
  (rnd : string) (data : InboundData) :
  ws < socketCount st ->
  readyState st ws = OPEN ->
  data_type data = JStr "error" ->
  let st' := step st (SocketMessage ws now rnd (Some data)) in
  connectionState st' = error /\
  trace st' = trace st ++ [ConnectionChange error] /\
  readyState st' = readyState st /\
  websocketRef st' = websocketRef st /\
  socketOpen st' = socketOpen st /\
  isWebSocketConnected st' = isWebSocketConnected st /\
  isCapturing st' = isCapturing st /\
  processorRef st' = processorRef st /\
  frameBufferRef st' = frameBufferRef st /\
  transcripts st' = transcripts st.
Proof.
  intros Hws Hready Htype. cbn [step].
  apply Nat.ltb_lt in Hws. rewrite Hws, Hready.
  unfold ws_onmessage, handleAzureWebSocketMessage. rewrite Htype. cbn.
  repeat split; reflexivity.
Qed.

Lemma error_message_keeps_channel_witness :
  let data :=
    {| data_type := JStr "error"; data_original := JUndefined;
       data_translated := JUndefined; data_text := JUndefined;
       data_timestamp := JUndefined; data_has_translation := JUndefined;
       data_detectedLanguage := JUndefined; data_confidence := JUndefined;
       data_message := JStr "quota exceeded" |} in
  let st' := step streaming (SocketMessage 0 5 "r" (Some data)) in
  0 < socketCount streaming /\
  readyState streaming 0 = OPEN /\
  connectionState st' = error /\
  socketOpen st' = socketOpen streaming.
Proof.
  intros data st'.
  pose proof (error_message_keeps_channel streaming 0 5%Z "r"%string data
                (Nat.lt_0_succ 0) eq_refl eq_refl) as (Hc & _ & _ & _ & Ho & _).
  split; [ apply Nat.lt_0_succ | split; [ reflexivity | ] ].
  split; [ exact Hc | exact Ho ].
Defined.

(** X9.  The transcript log only grows, by one entry at a time, and only
    when a [partial_transcript] or [final_transcript] message arrives; the
    one event that empties it is the opening of a socket. *)
Theorem transcript_log_append_only (st : State) (ev : Event) :
  (exists ws now rnd, ev = SocketOpens ws now rnd)
  \/ transcripts (step st ev) = transcripts st
  \/ exists ws now rnd data,
       ev = SocketMessage ws now rnd (Some data) /\
       ((data_type data = JStr "partial_transcript" /\
         transcripts (step st ev)
         = transcripts st ++ [partialEntry now rnd data])
        \/ (data_type data = JStr "final_transcript" /\
            transcripts (step st ev)
            = transcripts st ++ [finalEntry now rnd data])).
Proof.
  destruct ev; cbn [step].
  8:{ left. do 3 eexists. reflexivity. }
  8:{ right.
      destruct (ws <? socketCount st); [ | left; reflexivity ].
      assert (H : transcripts (ws_onmessage now rnd parsed st) = transcripts st
                  \/ exists data,
                       parsed = Some data /\
                       ((data_type data = JStr "partial_transcript" /\
                         transcripts (ws_onmessage now rnd parsed st)
                         = transcripts st ++ [partialEntry now rnd data])
                        \/ (data_type data = JStr "final_transcript" /\
                            transcripts (ws_onmessage now rnd parsed st)
                            = transcripts st ++ [finalEntry now rnd data]))).
      { destruct parsed as [ data | ]; [ | left; reflexivity ].
        unfold ws_onmessage, handleAzureWebSocketMessage.
        destruct (data_type data) as [ | | | | t | ] eqn:Ht;
          try (left; reflexivity).
        destruct (String.eqb_spec t "partial_transcript") as [ -> | _ ].
        { right. exists data. split; [ reflexivity | left ].
          split; [ exact Ht | reflexivity ]. }
        destruct (String.eqb_spec t "final_transcript") as [ -> | _ ].
        { right. exists data. split; [ reflexivity | right ].
          split; [ exact Ht | reflexivity ]. }
        destruct (String.eqb t "error"); left; reflexivity. }
      destruct (readyState st ws); try (left; reflexivity).
      all: destruct H as [ H | (data & -> & H) ]; [ left; exact H | right ].
      all: exists ws, now, rnd, data; split; [ reflexivity | exact H ]. }
  11:{ right. left. destruct (processorRef st); [ | reflexivity ].
       destruct (socketOpen st) eqn:Hopen.
       - destruct (onaudioprocess_open inputData st Hopen)
           as (_ & _ & _ & _ & _ & _ & Hview).
         unfold sessionView in Hview. congruence.
       - rewrite (onaudioprocess_closed _ _ Hopen). reflexivity. }
  all: right; left; unfold_handlers; split_cases; reflexivity.
Qed.

(** ** Events of a socket that is not the current one *)

(** X10.  The close handler is guarded by the identity of the socket, the
    error handler is not: the close of a socket that is not the current
    one changes nothing but that socket's ready state, whereas its error
    event still reports [error] and marks the component as not connected,
    although the current socket is untouched. *)
Theorem stale_socket_events (st : State) (ws : Socket) :
  ws < socketCount st ->
  websocketRef st <> Some ws ->
  (let st' := step st (SocketCloses ws) in
   st' = set_ready ws CLOSED st /\
   trace st' = trace st /\
   connectionState st' = connectionState st /\
   isWebSocketConnected st' = isWebSocketConnected st /\
   isCapturing st' = isCapturing st)
  /\
  (let st' := step st (SocketFails ws) in
   connectionState st' = error /\
   isWebSocketConnected st' = false /\
   websocketRef st' = websocketRef st /\
   (forall w, w <> ws -> readyState st' w = readyState st w) /\
   effectsSince st st'
   = [ConnectionChange error; Rejected "WebSocket connection failed"]).
Proof.
  intros Hws Hcur. apply Nat.ltb_lt in Hws. split; cbn [step]; rewrite Hws.
  - assert (Hstale : is_current ws (set_ready ws CLOSED st) = false).
    { unfold is_current. cbn.
      destruct (websocketRef st) as [ w | ]; [ | reflexivity ].
      apply Nat.eqb_neq. intros ->. apply Hcur. reflexivity. }
    unfold ws_onclose. rewrite Hstale. repeat split; reflexivity.
  - unfold ws_onerror, onConnectionChange, emit, effectsSince. cbn.
    repeat split; try reflexivity.
    + intros w Hw. unfold update. apply Nat.eqb_neq in Hw. rewrite Hw.
      reflexivity.
    + rewrite <- app_assoc, skipn_app, skipn_all, Nat.sub_diag. reflexivity.
Qed.

Lemma stale_socket_events_witness :
  let st :=
    run initialState
      [ClickConnect true; SocketOpens 0 0 "r"; ClickConnect true;
       SocketOpens 1 1 "s"] in
  0 < socketCount st /\
  websocketRef st = Some 1 /\
  socketOpen (step st (SocketCloses 0)) = true /\
  connectionState (step st (SocketCloses 0)) = connected /\
  socketOpen (step st (SocketFails 0)) = true /\
  connectionState (step st (SocketFails 0)) = error.
Proof.
  intro st.
  assert (Hws : 0 < socketCount st) by (vm_compute; lia).
  assert (Hcur : websocketRef st <> Some 0) by (vm_compute; discriminate).
  destruct (stale_socket_events st 0 Hws Hcur)
    as ((_ & _ & Hclose & _) & (Hfail & _)).
  split; [ exact Hws | ].
  split; [ vm_compute; reflexivity | ].
  split; [ vm_compute; reflexivity | ].
  split; [ rewrite Hclose; vm_compute; reflexivity | ].
  split; [ vm_compute; reflexivity | exact Hfail ].
Defined.

(** ** Starting capture while connected *)

Lemma socket_open_others (st : State) (ws w : Socket) (now : Z)
  (rnd : string) :
  ws < socketCount st ->
  readyState st ws = CONNECTING ->
  w <> ws ->
  readyState (step st (SocketOpens ws now rnd)) w = readyState st w.
Proof.
  intros Hws Hready Hw. cbn [step].
  apply Nat.ltb_lt in Hws. rewrite Hws, Hready.
  unfold ws_onopen, ws_send, onSessionStart, onConnectionChange, set_ready,
    emit.
  cbn. rewrite update_same. cbn.
  unfold update. apply Nat.eqb_neq in Hw. rewrite Hw. reflexivity.
Qed.

Lemma start_capture_effects (st : State) :
  isCapturing st = false ->
  let new := socketCount st in
  let st' := step st (ClickStartCapture true) in
  (exists released,
     trace st'
     = trace st ++ released
       ++ [ConnectionChange connecting; SocketCreated new] /\
     incl released [TracksStopped; AudioContextClosed]) /\
  connectionState st' = connecting /\
  isWebSocketConnected st' = false /\
  socketCount st' = S new /\
  readyState st' new = CONNECTING /\
  (forall w, w <> new -> readyState st' w = readyState st w) /\
  websocketRef st' = websocketRef st /\
  transcripts st' = transcripts st.
Proof.
  intros Hcap new st'. subst new st'. cbn [step].
  unfold startAudioCapture. rewrite Hcap.
  assert (Hother : forall (f : Socket -> ReadyState) n w,
             w <> n -> update f n CONNECTING w = f w).
  { intros f n w Hw. unfold update. apply Nat.eqb_neq in Hw. rewrite Hw.
    reflexivity. }
  split.
  - exists ((if mediaStreamRef st then [TracksStopped] else [])
            ++ match audioContextRef st with
               | Some closed | None => []
               | Some _ => [AudioContextClosed]
               end).
    split.
    + destruct (mediaStreamRef st);
        destruct (audioContextRef st) as [ [ | | ] | ] eqn:Hctx;
        unfold connectWebSocket, onConnectionChange, emit;
        cbn [trace set_trace set_connectionState set_isWebSocketConnected
             set_socketCount set_readyState set_closureLanguagePair
             set_mediaStreamRef set_audioContextRef audioContextRef];
        rewrite ?Hctx;
        cbn [trace set_trace set_connectionState set_isWebSocketConnected
             set_socketCount set_readyState set_closureLanguagePair
             set_mediaStreamRef set_audioContextRef audioContextRef
             socketCount];
        rewrite <- ?app_assoc; reflexivity.
    + destruct (mediaStreamRef st);
        destruct (audioContextRef st) as [ [ | | ] | ];
        intros e He; cbn in He |- *; tauto.
  - destruct (mediaStreamRef st);
      destruct (audioContextRef st) as [ [ | | ] | ] eqn:Hctx;
      unfold connectWebSocket, onConnectionChange, emit;
      cbn [audioContextRef set_trace set_mediaStreamRef]; rewrite ?Hctx;
      cbn -[update]; rewrite ?update_same;
      (repeat split; try reflexivity; intros w Hw; apply Hother; exact Hw).
Qed.

(** X11.  Starting capture while a socket is already open and current
    opens a further socket and never closes the first: until the new
    socket opens the old one stays current and open, and once it opens it
    becomes the current one, the log is emptied, and the old socket is
    left open with nothing referring to it. *)
Theorem start_capture_opens_second_socket (st : State) (old : Socket)
  (now : Z) (rnd : string) :
  old < socketCount st ->
  websocketRef st = Some old ->
  readyState st old = OPEN ->
  isCapturing st = false ->
  let new := socketCount st in
  let st1 := step st (ClickStartCapture true) in
  let st2 := step st1 (SocketOpens new now rnd) in
  (connectionState st1 = connecting /\
   websocketRef st1 = Some old /\
   readyState st1 old = OPEN /\
   readyState st1 new = CONNECTING) /\
  (connectionState st2 = connected /\
   websocketRef st2 = Some new /\
   readyState st2 new = OPEN /\
   readyState st2 old = OPEN /\
   transcripts st2 = []) /\
  (forall ws code reason,
     ~ In (SocketClose ws code reason) (effectsSince st st2)).
Proof.
  intros Hold Hcur Hready Hcap new st1 st2.
  destruct (start_capture_effects st Hcap)
    as ((released & Htrace1 & Hrel) & Hconn1 & _ & Hcount1 & Hnew1 & Hothers1
        & Hcur1 & _).
  fold st1 in Htrace1, Hconn1, Hcount1, Hnew1, Hothers1, Hcur1.
  fold new in Htrace1, Hcount1, Hnew1, Hothers1.
  assert (Hne : old <> new) by (unfold new; lia).
  assert (Hlt : new < socketCount st1) by (rewrite Hcount1; lia).
  destruct (socket_open_effects st1 new now rnd Hlt Hnew1)
    as (Htrace2 & Hconn2 & _ & Hcur2 & Hnew2 & _ & _ & Hlog2).
  fold st2 in Htrace2, Hconn2, Hcur2, Hnew2, Hlog2.
  split; [ | split ].
  - repeat split; try assumption.
    + rewrite Hcur1. exact Hcur.
    + rewrite (Hothers1 old Hne). exact Hready.
  - repeat split; try assumption.
    unfold st2. rewrite (socket_open_others st1 new old now rnd Hlt Hnew1 Hne).
    rewrite (Hothers1 old Hne). exact Hready.
  - intros ws code reason.
    rewrite (since_trace st st2
               (released
                ++ [ConnectionChange connecting; SocketCreated new]
                ++ [ConnectionChange connected;
                    SessionStart (generateSessionId now rnd);
                    SendText new
                      (session_init (generateSessionId now rnd) 16000 1
                         "azure_speech" (closureLanguagePair st1 new)
                         "indian");
                    Resolved new])).
    2:{ rewrite Htrace2, Htrace1, <- !app_assoc. reflexivity. }
    intro Hin. apply in_app_or in Hin. destruct Hin as [ Hin | Hin ].
    + apply Hrel in Hin.
      destruct Hin as [ Hin | [ Hin | [] ] ]; discriminate Hin.
    + cbn [app] in Hin. repeat (destruct Hin as [ Hin | Hin ];
                                [ discriminate Hin | ]).
      destruct Hin.
Qed.

Lemma start_capture_opens_second_socket_witness :
  let st := run initialState [ClickConnect true; SocketOpens 0 0 "r"] in
  let new := socketCount st in
  let st1 := step st (ClickStartCapture true) in
  let st2 := step st1 (SocketOpens new 1 "s") in
  0 < socketCount st /\
  websocketRef st = Some 0 /\
  readyState st 0 = OPEN /\
  isCapturing st = false /\
  websocketRef st2 = Some new /\
  readyState st2 0 = OPEN.
Proof.
  intros st new st1 st2.
  assert (Hold : 0 < socketCount st) by (vm_compute; lia).
  assert (Hcur : websocketRef st = Some 0) by (vm_compute; reflexivity).
  assert (Hready : readyState st 0 = OPEN) by (vm_compute; reflexivity).
  assert (Hcap : isCapturing st = false) by (vm_compute; reflexivity).
  destruct (start_capture_opens_second_socket st 0 1%Z "s"%string
              Hold Hcur Hready Hcap)
    as (_ & (_ & Hnew & _ & Hleft & _) & _).
  repeat (split; [ assumption | ]). exact Hleft.
Defined.

(** ** The detected language shown *)

Lemma step_partialsUndetected (st : State) (ev : Event) :
  partialsUndetected (transcripts st) ->
  partialsUndetected (transcripts (step st ev)).
Proof.
  unfold partialsUndetected. intro H.
  destruct (step_transcripts st ev)
    as [ -> | [ -> | (now & rnd & data & [ -> | -> ]) ] ].
  - exact H.
  - constructor.
  - apply Forall_app. split; [ exact H | ].
    constructor; [ intros _; reflexivity | constructor ].
  - apply Forall_app. split; [ exact H | ].
    constructor; [ intro Hp; discriminate Hp | constructor ].
Qed.

Lemma run_partialsUndetected (evs : list Event) (st : State) :
  partialsUndetected (transcripts st) ->
  partialsUndetected (transcripts (run st evs)).
Proof.
  revert st. induction evs as [ | ev evs IH ]; intros st H; [ exact H | ].
  cbn [run fold_left]. apply IH, step_partialsUndetected, H.
Qed.

(** X12.  Whatever the client receives, the detected language that the
    transcript display reads from the log is [unknown]: it is read from
    the latest partial entry, and partial entries are built without a
    detected language. *)
Theorem detected_language_always_unknown (evs : list Event) :
  TranscriptDisplay.getCurrentDetectedLanguage
    (transcripts (run initialState evs))
  = JStr "unknown".
Proof.
  unfold TranscriptDisplay.getCurrentDetectedLanguage.
  destruct (TranscriptDisplay.latest
              (filter TranscriptDisplay.isPartial
                 (transcripts (run initialState evs))))
    as [ e | ] eqn:Hlatest; [ | reflexivity ].
  apply latest_In, filter_In in Hlatest. destruct Hlatest as (Hin & Hp).
  pose proof (run_partialsUndetected evs initialState (Forall_nil _)) as Hinv.
  unfold partialsUndetected in Hinv. rewrite Forall_forall in Hinv.
  rewrite (Hinv e Hin); [ reflexivity | ].
  unfold TranscriptDisplay.isPartial in Hp.
  destruct (type e); [ reflexivity | discriminate Hp ].
Qed.

(** ** The limit to fifty words *)

Section WordLimit.

Import TranscriptDisplay.

Local Open Scope string_scope.

Lemma append_empty (s : string) : s ++ "" = s.
Proof. induction s as [ | c s IH ]; [ reflexivity | cbn; rewrite IH; reflexivity ]. Qed.

Lemma append_assoc (s t u : string) : (s ++ t) ++ u = s ++ (t ++ u).
Proof. induction s as [ | c s IH ]; [ reflexivity | cbn; rewrite IH; reflexivity ]. Qed.

Lemma split_from_word (word s : string) :
  exists piece rest,
    Js.split_from "" s = piece :: rest /\
    Js.split_from word s = (word ++ piece) :: rest.
Proof.
  revert word. induction s as [ | c s IH ]; intro word.
  - exists "", []. cbn. rewrite append_empty. split; reflexivity.
  - cbn [Js.split_from]. destruct (Ascii.eqb c " ").
    + exists "", (Js.split_from "" s). rewrite append_empty.
      split; reflexivity.
    + destruct (IH (String c "")) as (piece & rest & Hs & Hc).
      destruct (IH (word ++ String c "")) as (piece' & rest' & Hs' & Hw).
      rewrite Hs in Hs'. injection Hs' as <- <-.
      exists (String c piece), rest.
      change ("" ++ String c "") with (String c ""). rewrite Hc, Hw.
      rewrite append_assoc. split; reflexivity.
Qed.

(** [split] read from the left. *)
Lemma split_space_cons (c : ascii) (s : string) :
  Js.split_space (String c s)
  = if Ascii.eqb c " " then "" :: Js.split_space s
    else match Js.split_space s with
         | piece :: rest => String c piece :: rest
         | [] => [String c ""]
         end.
Proof.
  unfold Js.split_space. cbn [Js.split_from]. destruct (Ascii.eqb c " ").
  - reflexivity.
  - change ("" ++ String c "") with (String c "").
    destruct (split_from_word (String c "") s) as (piece & rest & -> & ->).
    reflexivity.
Qed.

Lemma split_space_nonempty (s : string) : Js.split_space s <> [].
Proof.
  destruct (split_from_word "" s) as (piece & rest & H & _).
  unfold Js.split_space. rewrite H. discriminate.
Qed.

Lemma split_space_free (s : string) :
  Forall (fun w => spaceFree w = true) (Js.split_space s).
Proof.
  induction s as [ | c s IH ].
  - repeat constructor.
  - rewrite split_space_cons. destruct (Ascii.eqb c " ") eqn:Hc.
    + constructor; [ reflexivity | exact IH ].
    + destruct (Js.split_space s) as [ | piece rest ].
      * repeat constructor. cbn. rewrite Hc. reflexivity.
      * inversion IH as [ | ? ? Hp Hr ]; subst.
        constructor; [ cbn; rewrite Hc, Hp; reflexivity | exact Hr ].
Qed.

Lemma split_space_word (w : string) :
  spaceFree w = true -> Js.split_space w = [w].
Proof.
  induction w as [ | c w IH ]; [ reflexivity | ].
  cbn [spaceFree]. intro H. apply andb_prop in H. destruct H as (Hc & Hw).
  apply negb_true_iff in Hc.
  rewrite split_space_cons, Hc, (IH Hw). reflexivity.
Qed.

Lemma split_space_word_then (w s : string) :
  spaceFree w = true ->
  Js.split_space (w ++ " " ++ s) = w :: Js.split_space s.
Proof.
  induction w as [ | c w IH ].
  - intros _. cbn [append]. rewrite split_space_cons. reflexivity.
  - cbn [spaceFree]. intro H. apply andb_prop in H. destruct H as (Hc & Hw).
    apply negb_true_iff in Hc.
    cbn [append]. rewrite split_space_cons, Hc.
    change (w ++ String " " s) with (w ++ " " ++ s).
    rewrite (IH Hw). reflexivity.
Qed.

(** [split] undoes [join] on pieces that hold no space. *)
Lemma split_join (ws : list string) :
  ws <> [] ->
  Forall (fun w => spaceFree w = true) ws ->
  Js.split_space (Js.join_space ws) = ws.
Proof.
  induction ws as [ | w ws IH ]; [ intro H; contradiction H; reflexivity | ].
  intros _ Hfree. inversion Hfree as [ | ? ? Hw Hws ]; subst.
  destruct ws as [ | w' ws ].
  - cbn [Js.join_space]. apply split_space_word, Hw.
  - change (Js.join_space (w :: w' :: ws))
      with (w ++ " " ++ Js.join_space (w' :: ws)).
    rewrite (split_space_word_then _ _ Hw), IH;
      [ reflexivity | discriminate | exact Hws ].
Qed.

(** [split] of a text to which a word without spaces is appended. *)
Lemma split_space_append (s t : string) :
  spaceFree t = true ->
  Js.split_space (s ++ t)
  = (removelast (Js.split_space s)
     ++ [(last (Js.split_space s) "" ++ t)%string])%list.
Proof.
  intro Ht. induction s as [ | c s IH ].
  - cbn. apply split_space_word, Ht.
  - cbn [append]. rewrite !split_space_cons, IH.
    pose proof (split_space_nonempty s) as Hne.
    destruct (Ascii.eqb c " ").
    + destruct (Js.split_space s) as [ | piece rest ];
        [ contradiction Hne; reflexivity | ].
      reflexivity.
    + destruct (Js.split_space s) as [ | piece [ | piece' rest ] ];
        [ contradiction Hne; reflexivity | reflexivity | ].
      reflexivity.
Qed.

Lemma slice_last_length {A : Type} (n : nat) (l : list A) :
  n <= List.length l -> List.length (Js.slice_last n l) = n.
Proof. intro H. unfold Js.slice_last. rewrite length_skipn. lia. Qed.

Lemma slice_last_Forall {A : Type} (P : A -> Prop) (n : nat) (l : list A) :
  Forall P l -> Forall P (Js.slice_last n l).
Proof.
  intro H. unfold Js.slice_last. rewrite Forall_forall in *.
  intros x Hx. apply H. revert Hx. generalize (List.length l - n)%nat.
  intro k. revert l H. induction k as [ | k IH ]; intros l H Hx.
  - exact Hx.
  - destruct l as [ | y l ]; [ destruct Hx | ].
    right. apply (IH l); [ intros z Hz; apply H; right; exact Hz | exact Hx ].
Qed.

Lemma removelast_length {A : Type} (l : list A) :
  List.length (removelast l) = Nat.pred (List.length l).
Proof.
  induction l as [ | x [ | y l ] IH ]; [ reflexivity | reflexivity | ].
  change (removelast (x :: y :: l)) with (x :: removelast (y :: l)).
  cbn [List.length]. rewrite IH. reflexivity.
Qed.

(** X13.  The limit to fifty words never shows more than fifty pieces:
    a text of at most fifty pieces is shown as it is, and of a longer
    text the last fifty pieces are shown, in order, with three dots
    appended to the last; limiting a limited text changes nothing. *)
Theorem limitWords_keeps_last_fifty (text : string) :
  let words := Js.split_space text in
  let kept := Js.slice_last 50 words in
  let shown := Js.split_space (limitWords text) in
  (List.length shown <= 50)%nat /\
  limitWords (limitWords text) = limitWords text /\
  (((List.length words <= 50)%nat /\ limitWords text = text)
   \/ ((50 < List.length words)%nat /\
       shown = (removelast kept ++ [(last kept "" ++ "...")%string])%list)).
Proof.
  intros words kept shown.
  assert (Hcases :
    ((List.length words <= 50)%nat /\ limitWords text = text)
    \/ ((50 < List.length words)%nat /\
        shown = (removelast kept ++ [(last kept "" ++ "...")%string])%list)).
  { unfold shown, limitWords. fold words.
    destruct (Nat.ltb_spec 50 (List.length words)) as [ Hlong | Hshort ].
    - right. split; [ exact Hlong | ]. fold kept.
      rewrite split_space_append by reflexivity.
      rewrite split_join; [ reflexivity | | ].
      + intro Hnil.
        assert (Hlen : List.length kept = 50%nat)
          by (apply slice_last_length; lia).
        rewrite Hnil in Hlen. discriminate Hlen.
      + apply slice_last_Forall, split_space_free.
    - left. split; [ exact Hshort | reflexivity ]. }
  assert (Hshown : (List.length shown <= 50)%nat).
  { destruct Hcases as [ (Hshort & Hsame) | (Hlong & ->) ].
    - unfold shown. rewrite Hsame. exact Hshort.
    - rewrite length_app, removelast_length.
      assert (Hlen : List.length kept = 50%nat)
        by (apply slice_last_length; lia).
      rewrite Hlen. cbn [List.length]. lia. }
  split; [ exact Hshown | split; [ | exact Hcases ] ].
  unfold limitWords at 1. fold shown.
  apply Nat.ltb_ge in Hshown. rewrite Hshown. reflexivity.
Qed.

End WordLimit.

(** ** The audio worklet *)

Section Worklet.

Import AudioWorklet.

Lemma frameSize_pos : 0 < frameSize.
Proof. with_strategy transparent [frameSize] (unfold frameSize). lia. Qed.

Lemma store_length (i : nat) (x : number) (a : list number) :
  List.length (store i x a) = List.length a.
Proof.
  revert i. induction a as [ | y a IH ]; intro i;
    [ destruct i; reflexivity | ].
  destruct i as [ | i ]; cbn; [ reflexivity | rewrite IH; reflexivity ].
Qed.

Lemma firstn_store (i : nat) (x : number) (a : list number) :
  i < List.length a ->
  firstn (S i) (store i x a) = firstn i a ++ [x].
Proof.
  revert i. induction a as [ | y a IH ]; intros i Hi; [ cbn in Hi; lia | ].
  destruct i as [ | i ]; [ reflexivity | ].
  cbn [store]. rewrite !firstn_cons, IH by (cbn in Hi; lia). reflexivity.
Qed.

Lemma map_nth_seq {A B : Type} (f : A -> B) (d : A) (l : list A) :
  map (fun j => f (nth j l d)) (seq 0 (List.length l)) = map f l.
Proof.
  induction l as [ | x l IH ]; [ reflexivity | ].
  cbn [List.length seq map nth]. f_equal.
  rewrite <- seq_shift, map_map. exact IH.
Qed.

Lemma toPcm_full (b : list number) :
  List.length b = frameSize ->
  toPcm b = map SampleConverter.convertSample b.
Proof. intro H. unfold toPcm. rewrite <- H. apply map_nth_seq. Qed.

Lemma concat_blocks_length {A : Type} (n : nat) (blocks : list (list A)) :
  Forall (fun b => List.length b = n) blocks ->
  List.length (List.concat blocks) = List.length blocks * n.
Proof.
  induction 1 as [ | b blocks Hb _ IH ]; [ reflexivity | ].
  cbn [List.concat List.length]. rewrite length_app, Hb, IH. lia.
Qed.

Lemma processSample_hasRead (p : Processor) (all : list number) (x : number) :
  hasRead p all -> hasRead (processSample p x) (all ++ [x]).
Proof.
  intros (Hbuf & Hcount & blocks & Hposted & Hblocks & Hall).
  assert (Hstored :
    firstn (S (sampleCount p)) (store (sampleCount p) x (buffer p))
    = firstn (sampleCount p) (buffer p) ++ [x])
    by (apply firstn_store; lia).
  assert (Hlen : List.length (store (sampleCount p) x (buffer p)) = frameSize)
    by (rewrite store_length; exact Hbuf).
  unfold processSample.
  destruct (Nat.leb_spec frameSize (S (sampleCount p))) as [ Hfull | Hpart ].
  - assert (Heq : S (sampleCount p) = frameSize) by lia.
    split; [ exact Hlen | split; [ apply frameSize_pos | ] ].
    exists (blocks ++ [store (sampleCount p) x (buffer p)]).
    cbn [posted sampleCount buffer firstn].
    split; [ | split ].
    + rewrite map_app, Hposted, (toPcm_full _ Hlen). reflexivity.
    + apply Forall_app. split; [ exact Hblocks | ].
      constructor; [ exact Hlen | constructor ].
    + rewrite concat_app, app_nil_r. cbn [List.concat]. rewrite app_nil_r.
      rewrite <- Hall, <- app_assoc, <- Hstored. f_equal.
      rewrite Heq, <- Hlen. symmetry. apply firstn_all.
  - split; [ exact Hlen | split; [ exact Hpart | ] ].
    exists blocks. cbn [posted sampleCount buffer].
    split; [ exact Hposted | split; [ exact Hblocks | ] ].
    rewrite Hstored, app_assoc, Hall. reflexivity.
Qed.

Lemma fill_hasRead (inputChannel : list number) (p : Processor)
  (all : list number) :
  hasRead p all ->
  hasRead (fold_left processSample inputChannel p) (all ++ inputChannel).
Proof.
  revert p all. induction inputChannel as [ | x rest IH ]; intros p all H.
  - rewrite app_nil_r. exact H.
  - cbn [fold_left].
    replace (all ++ x :: rest) with ((all ++ [x]) ++ rest)
      by (rewrite <- app_assoc; reflexivity).
    apply IH, processSample_hasRead, H.
Qed.

Lemma process_hasRead (input : list (list number)) (p : Processor)
  (all : list number) :
  hasRead p all -> hasRead (process p input) (all ++ heard input).
Proof.
  intro H. destruct input as [ | inputChannel others ].
  - cbn. rewrite app_nil_r. exact H.
  - apply fill_hasRead, H.
Qed.

Lemma processes_hasRead (inputs : list (list (list number))) (p : Processor)
  (all : list number) :
  hasRead p all ->
  hasRead (fold_left process inputs p)
    (all ++ List.concat (map heard inputs)).
Proof.
  revert p all. induction inputs as [ | input rest IH ]; intros p all H.
  - cbn. rewrite app_nil_r. exact H.
  - cbn [fold_left map List.concat]. rewrite app_assoc.
    apply IH, process_hasRead, H.
Qed.

(** X14.  The audio worklet cuts what it hears into frames without loss:
    after any calls of [process] on a new processor, the frames posted are
    the conversions of consecutive blocks of 1024 samples, every full
    block is posted whether it is silent or not, and the blocks followed
    by the samples waiting in the buffer are the samples heard, fewer
    than 1024 of them waiting. *)
Theorem worklet_frames_lossless (inputs : list (list (list number))) :
  let p := processAll inputs in
  let all := List.concat (map heard inputs) in
  exists blocks,
    posted p = map (map SampleConverter.convertSample) blocks /\
    Forall (fun b => List.length b = frameSize) blocks /\
    List.concat blocks ++ firstn (sampleCount p) (buffer p) = all /\
    sampleCount p < frameSize /\
    List.length (posted p) = List.length all / frameSize /\
    sampleCount p = List.length all mod frameSize.
Proof.
  intros p all.
  assert (Hnew : hasRead constructed []).
  { split; [ apply repeat_length | split; [ apply frameSize_pos | ] ].
    exists []. repeat split; constructor. }
  destruct (processes_hasRead inputs constructed [] Hnew)
    as (Hbuf & Hcount & blocks & Hposted & Hblocks & Hall).
  cbn [app] in Hall. fold (processAll inputs) in Hbuf, Hcount, Hposted, Hall.
  fold p in Hbuf, Hcount, Hposted, Hall. fold all in Hall.
  assert (Hlen : List.length all
                 = List.length blocks * frameSize + sampleCount p).
  { rewrite <- Hall, length_app, (concat_blocks_length _ _ Hblocks).
    rewrite length_firstn. lia. }
  exists blocks.
  split; [ exact Hposted | split; [ exact Hblocks | ] ].
  split; [ exact Hall | split; [ exact Hcount | ] ].
  split.
  - rewrite Hposted, length_map.
    apply Nat.div_unique with (r := sampleCount p); [ exact Hcount | lia ].
  - apply Nat.mod_unique with (q := List.length blocks);
      [ exact Hcount | lia ].
Qed.

End Worklet.

(** ** The language selector *)

Section Selector.

Import LanguageSelector.

Lemma next_distinct (value : LanguagePair) (a : Action) :
  distinctLanguages value -> distinctLanguages (next value a).
Proof.
  unfold distinctLanguages, next, handle, handleSourceChange,
    handleTargetChange, swapLanguages.
  intro H. destruct a as [ sourceCode | targetCode | ].
  - destruct (String.eqb_spec sourceCode (target value)) as [ _ | Hne ];
      [ exact H | exact Hne ].
  - destruct (String.eqb_spec targetCode (source value)) as [ _ | Hne ];
      [ exact H | cbn; intro Heq; apply Hne; symmetry; exact Heq ].
  - cbn. intro Heq. apply H. symmetry. exact Heq.
Qed.

(** X15.  The language selector never hands its parent a pair whose two
    languages are the same: from a pair of distinct languages, whatever
    the user selects or swaps, source and target stay distinct; a
    selection that would make them equal is dropped. *)
Theorem selector_keeps_languages_distinct (value : LanguagePair)
  (actions : list Action) :
  distinctLanguages value ->
  distinctLanguages (fold_left next actions value) /\
  (forall a newPair,
      handle (fold_left next actions value) a = Some newPair ->
      distinctLanguages newPair).
Proof.
  intro H.
  assert (Hrun : distinctLanguages (fold_left next actions value)).
  { revert value H. induction actions as [ | a rest IH ]; intros value H.
    - exact H.
    - cbn [fold_left]. apply IH, next_distinct, H. }
  split; [ exact Hrun | ].
  intros a newPair Ha.
  generalize (next_distinct _ a Hrun).
  generalize (fold_left next actions value) Ha. clear.
  intros v Ha Hnext. unfold next in Hnext. rewrite Ha in Hnext.
  exact Hnext.
Qed.

Lemma selector_keeps_languages_distinct_witness :
  let value := {| source := "en"; target := "hi" |} in
  let actions := [SelectSource "hi"; Swap; SelectTarget "hi"; SelectTarget "fr"] in
  distinctLanguages value /\
  fold_left next actions value = {| source := "hi"; target := "fr" |} /\
  distinctLanguages (fold_left next actions value).
Proof.
  intros value actions.
  assert (H : distinctLanguages value) by (intro Heq; discriminate Heq).
  split; [ exact H | split; [ reflexivity | ] ].
  exact (proj1 (selector_keeps_languages_distinct value actions H)).
Defined.

End Selector.

(** ** The address of the socket *)

Section Address.

Import Env.

Local Open Scope string_scope.

Lemma replace_http_cases (s : string) :
  (exists rest, s = "http" ++ rest /\ replace_http s = "ws" ++ rest)
  \/ ((forall rest, s <> "http" ++ rest) /\ replace_http s = s).
Proof.
  destruct s as [ | c1 [ | c2 [ | c3 [ | c4 rest ] ] ] ].
  1-4: right; split; [ intros rest H; discriminate H | ].
  1-4: try reflexivity.
  1-3: destruct c1 as [ [ | ] [ | ] [ | ] [ | ] [ | ] [ | ] [ | ] [ | ] ];
    try reflexivity.
  1-2: destruct c2 as [ [ | ] [ | ] [ | ] [ | ] [ | ] [ | ] [ | ] [ | ] ];
    try reflexivity.
  1: destruct c3 as [ [ | ] [ | ] [ | ] [ | ] [ | ] [ | ] [ | ] [ | ] ];
    reflexivity.
  destruct (ascii_dec c1 "h") as [ -> | N1 ].
  2:{ right. split; [ intros r H; injection H as H1; contradiction (N1 H1) | ].
      destruct c1 as [ [ | ] [ | ] [ | ] [ | ] [ | ] [ | ] [ | ] [ | ] ];
        try reflexivity.
      contradiction N1; reflexivity. }
  destruct (ascii_dec c2 "t") as [ -> | N2 ].
  2:{ right. split;
        [ intros r H; injection H as H2; contradiction (N2 H2) | ].
      destruct c2 as [ [ | ] [ | ] [ | ] [ | ] [ | ] [ | ] [ | ] [ | ] ];
        try reflexivity.
      contradiction N2; reflexivity. }
  destruct (ascii_dec c3 "t") as [ -> | N3 ].
  2:{ right. split;
        [ intros r H; injection H as H3; contradiction (N3 H3) | ].
      destruct c3 as [ [ | ] [ | ] [ | ] [ | ] [ | ] [ | ] [ | ] [ | ] ];
        try reflexivity.
      contradiction N3; reflexivity. }
  destruct (ascii_dec c4 "p") as [ -> | N4 ].
  2:{ right. split;
        [ intros r H; injection H as H4; contradiction (N4 H4) | ].
      destruct c4 as [ [ | ] [ | ] [ | ] [ | ] [ | ] [ | ] [ | ] [ | ] ];
        try reflexivity.
      contradiction N4; reflexivity. }
  left. exists rest. split; reflexivity.
Qed.

(** X16.  The address the client connects to is derived from
    [VITE_API_BASE_URL] alone: when that setting is absent or empty the
    address is [ws://localhost:8000/ws]; otherwise a leading [http] is
    replaced by [ws], so that [https] becomes [wss], any other base is
    kept as it is, and [/ws] is appended.  [VITE_WS_URL] plays no part. *)
Theorem websocket_url_from_api_base (meta : Environment) :
  let setting := lookup meta "VITE_API_BASE_URL" in
  let url := getWebSocketUrl meta in
  ((setting = None \/ setting = Some "") /\ url = "ws://localhost:8000/ws")
  \/ exists base,
       setting = Some base /\ base <> "" /\
       ((exists rest, base = "http" ++ rest /\ url = "ws" ++ rest ++ "/ws")
        \/ ((forall rest, base <> "http" ++ rest) /\ url = base ++ "/ws")).
Proof.
  intros setting url. unfold url, getWebSocketUrl, env, getEnvVar.
  cbn [apiBaseUrl]. fold setting.
  destruct setting as [ base | ]; [ | left; split; [ left | ]; reflexivity ].
  destruct (String.eqb_spec base "") as [ -> | Hne ];
    [ left; split; [ right | ]; reflexivity | ].
  right. exists base. split; [ reflexivity | split; [ exact Hne | ] ].
  destruct (replace_http_cases base) as [ (rest & -> & ->) | (Hno & ->) ].
  - left. exists rest. split; reflexivity.
  - right. split; [ exact Hno | reflexivity ].
Qed.

End Address.

(** ** Audio across a disconnect *)

Lemma audio_dropped_while_closed (chunks : list (list number)) (st : State) :
  socketOpen st = false ->
  run st (map AudioProcess chunks) = st.
Proof.
  intro Hclosed. induction chunks as [ | inputData rest IH ]; [ reflexivity | ].
  cbn [map run fold_left step].
  assert (Hsame : (if processorRef st then onaudioprocess inputData st else st)
                  = st).
  { destruct (processorRef st); [ | reflexivity ].
    apply onaudioprocess_closed, Hclosed. }
  rewrite Hsame. exact IH.
Qed.

Lemma disconnect_keeps_capture (st : State) :
  let st' := step st ClickDisconnect in
  socketOpen st' = false /\
  frameBufferRef st' = frameBufferRef st /\
  isCapturing st' = isCapturing st /\
  processorRef st' = processorRef st /\
  socketCount st' = socketCount st.
Proof.
  cbn [step]. unfold socketOpen. unfold_handlers. split_cases; cbn in *;
    repeat split; congruence.
Qed.

Lemma connect_keeps_capture (st : State) :
  let st' := step st (ClickConnect true) in
  frameBufferRef st' = frameBufferRef st /\
  isCapturing st' = isCapturing st /\
  processorRef st' = processorRef st.
Proof. cbn [step]. unfold_handlers. cbn. repeat split; reflexivity. Qed.

Lemma open_keeps_capture (st : State) (ws : Socket) (now : Z) (rnd : string) :
  let st' := step st (SocketOpens ws now rnd) in
  frameBufferRef st' = frameBufferRef st /\
  isCapturing st' = isCapturing st /\
  processorRef st' = processorRef st.
Proof.
  cbn [step]. unfold_handlers. split_cases; cbn; repeat split; reflexivity.
Qed.

(** X17.  Disconnecting does not stop capture and does not empty the
    frame buffer.  The audio heard while no socket is open is dropped,
    not buffered; the samples that were waiting at the disconnect are
    still waiting when the next socket opens, so they head the first
    frame of the new session. *)
Theorem audio_across_disconnect (st : State) (gap : list (list number))
  (now : Z) (rnd : string) :
  let st1 := step st ClickDisconnect in
  let st2 := run st1 (map AudioProcess gap) in
  let st3 := run st2 [ClickConnect true; SocketOpens (socketCount st) now rnd] in
  st2 = st1 /\
  socketOpen st3 = true /\
  residual st3 = residual st /\
  isCapturing st3 = isCapturing st /\
  processorRef st3 = processorRef st.
Proof.
  intros st1 st2 st3.
  destruct (disconnect_keeps_capture st)
    as (Hclosed & Hbuf1 & Hcap1 & Hproc1 & Hcount1).
  fold st1 in Hclosed, Hbuf1, Hcap1, Hproc1, Hcount1.
  assert (H2 : st2 = st1) by (apply audio_dropped_while_closed, Hclosed).
  split; [ exact H2 | ].
  unfold st3. rewrite H2. cbn [run fold_left]. rewrite <- Hcount1.
  destruct (connect_effects st1) as (_ & _ & Hcount & Hready & _).
  destruct (connect_keeps_capture st1) as (Hbuf2 & Hcap2 & Hproc2).
  set (sta := step st1 (ClickConnect true)) in *.
  assert (Hlt : socketCount st1 < socketCount sta) by (rewrite Hcount; lia).
  destruct (socket_open_effects sta (socketCount st1) now rnd Hlt Hready)
    as (_ & _ & _ & Hcur & Hopen & _).
  destruct (open_keeps_capture sta (socketCount st1) now rnd)
    as (Hbuf3 & Hcap3 & Hproc3).
  set (stb := step sta (SocketOpens (socketCount st1) now rnd)) in *.
  split; [ unfold socketOpen; rewrite Hcur, Hopen; reflexivity | ].
  unfold residual. rewrite Hbuf3, Hbuf2, Hbuf1, Hcap3, Hcap2, Hcap1.
  rewrite Hproc3, Hproc2, Hproc1. repeat split; reflexivity.
Qed.

(** ** The session shown *)

Lemma step_sessionId (st : State) (ev : Event) :
  sessionId (step st ev) = sessionId st
  \/ exists now rnd, sessionId (step st ev) = generateSessionId now rnd.
Proof.
  destruct ev; cbn [step].
  13:{ left. destruct (processorRef st); [ | reflexivity ].
       destruct (socketOpen st) eqn:Hopen.
       - destruct (onaudioprocess_open inputData st Hopen)
           as (_ & _ & _ & _ & _ & _ & Hview).
         unfold sessionView in Hview. congruence.
       - rewrite (onaudioprocess_closed _ _ Hopen). reflexivity. }
  all: unfold_handlers; split_cases; cbn; try (left; reflexivity).
  all: right; do 2 eexists; reflexivity.
Qed.

(** X18.  The session identifier that the application shows is never
    cleared: once a session has started, the identifier stays in place
    through every later event, until the next socket opens and replaces
    it; a disconnect forgets the identifier in the capture component but
    not in the application. *)
Theorem session_id_outlives_session (st : State) (evs : list Event) :
  sessionId st <> EmptyString ->
  sessionId (run st evs) <> EmptyString /\
  sessionId (step st ClickDisconnect) = sessionId st /\
  sessionIdRef (step st ClickDisconnect) = EmptyString.
Proof.
  intro Hset. split.
  - revert st Hset. induction evs as [ | ev rest IH ]; intros st Hset;
      [ exact Hset | ].
    cbn [run fold_left]. apply IH.
    destruct (step_sessionId st ev) as [ -> | (now & rnd & ->) ];
      [ exact Hset | ].
    unfold generateSessionId, stamped. cbn. discriminate.
  - cbn [step]. unfold_handlers. split_cases; cbn; split; reflexivity.
Qed.

Lemma session_id_outlives_session_witness :
  let st := run initialState [ClickConnect true; SocketOpens 0 7 "r"] in
  sessionId st <> EmptyString /\
  connectionState (run st [ClickDisconnect]) = disconnected /\
  sessionId (run st [ClickDisconnect]) <> EmptyString.
Proof.
  intro st.
  assert (H : sessionId st <> EmptyString) by (vm_compute; discriminate).
  split; [ exact H | split; [ vm_compute; reflexivity | ] ].
  exact (proj1 (session_id_outlives_session st [ClickDisconnect] H)).
Defined.
